(** * wuw: the line-oriented package and import scanner

    A shallow embedding of [main.go] (package [main] of krbreyn/wuw).  Where
    the later revision of the same file differs (it strips the quotes of
    single-line imports, and it skips the directories it cannot list), the
    difference is modelled beside the code of [main.go].

    Go strings are byte strings: they are modelled by [string], one [ascii]
    per byte.  A function returning [(T, error)] is modelled by a pair whose
    second component is an [option error] ([None] is Go's [nil] error); a
    run-time panic is a separate outcome.  A [*bufio.Reader] is modelled by
    the sequence of results its successive [ReadString('\n')] calls yield. *)

From Stdlib Require Import ZArith Ascii String List Lia.
From stdpp Require Import base strings gmap.

Local Open Scope Z_scope.

(* ===================================================================== *)
(** ** Bytes and string literals *)
(* ===================================================================== *)

Definition nl : ascii := "010"%char.
Definition tab : ascii := "009"%char.
Definition dq : ascii := "034"%char.

(** A Go string literal terminated by a newline, and a quoted literal. *)
Definition ln (s : string) : string := s +:+ String nl "".
Definition quoted (s : string) : string := String dq (s +:+ String dq "").

Definition bytes (l : list nat) : string :=
  fold_right (fun n s => String (ascii_of_nat n) s) EmptyString l.

(** [len(s)] *)
Definition len (s : string) : Z := Z.of_nat (String.length s).
Definition llen {A} (l : list A) : Z := Z.of_nat (List.length l).

(* ===================================================================== *)
(** ** Go's [int], errors and panics *)
(* ===================================================================== *)

(** [int] is 64 bits wide on the platforms Go's toolchain targets here;
    [x++] wraps around. *)
Definition int_wrap (x : Z) : Z := (x + 2 ^ 63) mod 2 ^ 64 - 2 ^ 63.
Definition int_incr (x : Z) : Z := int_wrap (x + 1).

(** An [error] value: [io.EOF], or an error carrying a message (the values
    of [fmt.Errorf], and the errors of package [os]). *)
Inductive error : Type :=
| io_EOF
| errorString (msg : string).

Definition Error (e : error) : string :=
  match e with
  | io_EOF => "EOF"
  | errorString msg => msg
  end.

Global Instance error_eq_dec : EqDecision error.
Proof. solve_decision. Defined.

(** Run-time panics of indexing and slicing. *)
Inductive panic : Type :=
| index_out_of_range (i : Z) (length : Z)
| slice_bounds_out_of_range (lo hi : Z).

(** What a call does: it returns, or it panics. *)
Inductive outcome (R : Type) : Type :=
| Returns (v : R)
| Panics (p : panic).
Arguments Returns {R} v.
Arguments Panics {R} p.

(** [s[i]] on a slice of strings. *)
Definition index (l : list string) (i : Z) : panic + string :=
  if (0 <=? i) && (i <? llen l)
  then match nth_error l (Z.to_nat i) with
       | Some s => inr s
       | None => inl (index_out_of_range i (llen l))
       end
  else inl (index_out_of_range i (llen l)).

(** [s[lo:hi]] on a string: the bounds must satisfy [0 <= lo <= hi <= len(s)]. *)
Definition slice (s : string) (lo hi : Z) : panic + string :=
  if (0 <=? lo) && (lo <=? hi) && (hi <=? len s)
  then inr (String.substring (Z.to_nat lo) (Z.to_nat (hi - lo)) s)
  else inl (slice_bounds_out_of_range lo hi).

(* ===================================================================== *)
(** ** Package [strings] *)
(* ===================================================================== *)

(** The UTF-8 encodings of the runes for which [unicode.IsSpace] holds:
    the six ASCII ones, U+0085, U+00A0, U+1680, U+2000 to U+200A, U+2028,
    U+2029, U+202F, U+205F and U+3000. *)
Definition white_space : list string :=
  map bytes
    [ [9]; [10]; [11]; [12]; [13]; [32]; [194; 133]; [194; 160];
      [225; 154; 128];
      [226; 128; 128]; [226; 128; 129]; [226; 128; 130]; [226; 128; 131];
      [226; 128; 132]; [226; 128; 133]; [226; 128; 134]; [226; 128; 135];
      [226; 128; 136]; [226; 128; 137]; [226; 128; 138];
      [226; 128; 168]; [226; 128; 169]; [226; 128; 175];
      [226; 129; 159]; [227; 128; 128] ]%nat.

(** The width in bytes of the white-space rune [s] starts with, [0] when it
    starts with none.  [ws] is the table of encodings. *)
Definition space_width (ws : list string) (s : string) : nat :=
  match find (fun w => String.prefix w s) ws with
  | Some w => String.length w
  | None => 0%nat
  end.

(** [strings.HasPrefix(s, prefix)] and [strings.Contains(s, substr)]. *)
Definition HasPrefix (s prefix : string) : bool := String.prefix prefix s.

Fixpoint Contains (s substr : string) : bool :=
  String.prefix substr s
  || match s with
     | EmptyString => false
     | String _ s' => Contains s' substr
     end.

(** Dropping the leading white space; [skip] counts the bytes of the
    current white-space rune that are still to be dropped. *)
Fixpoint trim_left (ws : list string) (skip : nat) (s : string) : string :=
  match s with
  | EmptyString => EmptyString
  | String _ s' =>
      match skip with
      | S k => trim_left ws k s'
      | O => match space_width ws s with
             | O => s
             | S k => trim_left ws k s'
             end
      end
  end.

(** [strings.TrimSpace(s)]: leading and trailing white space removed.  The
    trailing end is trimmed on the reversed string with the reversed table. *)
Definition TrimSpace (s : string) : string :=
  String.rev
    (trim_left (map String.rev white_space) 0
       (String.rev (trim_left white_space 0 s))).

(** [strings.Fields(s)]: the maximal runs of bytes between white space. *)
Definition flush (cur : string) (acc : list string) : list string :=
  match cur with
  | EmptyString => acc
  | _ => acc ++ [String.rev cur]
  end.

Fixpoint fields_go (skip : nat) (cur : string) (acc : list string)
    (s : string) : list string :=
  match s with
  | EmptyString => flush cur acc
  | String c s' =>
      match skip with
      | S k => fields_go k cur acc s'
      | O => match space_width white_space s with
             | O => fields_go O (String c cur) acc s'
             | S k => fields_go k EmptyString (flush cur acc) s'
             end
      end
  end.

Definition Fields (s : string) : list string := fields_go 0 EmptyString [] s.

(* ===================================================================== *)
(** ** The line source *)
(* ===================================================================== *)

(** A [*bufio.Reader] as the results of its successive [ReadString('\n')]
    calls: complete lines, then the data left before the source failed and
    the error of the failure ([io.EOF] at a clean end of input). *)
Inductive Reader : Type :=
| Line (line : string) (rest : Reader)
| Fail (data : string) (err : error).

(** [r.ReadString('\n')], with the reader after the call. *)
Definition ReadString (r : Reader) : (string * option error) * Reader :=
  match r with
  | Line line rest => ((line, None), rest)
  | Fail data err => ((data, Some err), Fail EmptyString err)
  end.

(** [bufio.NewReader(f)] for a source that delivers [content] and then
    fails with [err]: the content is cut after each newline. *)
Fixpoint reader_go (cur : string) (err : error) (content : string) : Reader :=
  match content with
  | EmptyString => Fail (String.rev cur) err
  | String c s' =>
      if Ascii.eqb c nl
      then Line (String.rev (String c cur)) (reader_go EmptyString err s')
      else reader_go (String c cur) err s'
  end.

Definition NewReaderErr (content : string) (err : error) : Reader :=
  reader_go EmptyString err content.

(** A file read to its end. *)
Definition NewReader (content : string) : Reader := NewReaderErr content io_EOF.


(* ===================================================================== *)
(** ** [ParseFileForImports] *)
(* ===================================================================== *)

(** The two revisions of the function differ in one expression, the value
    appended for a single-line import: [main.go] appends [split[1]], the
    later revision appends [split[1][1:len(split[1])-1]]. *)
Inductive revision : Type :=
| MainGo
| Later.

(** The markers searched for in a line: [import], a blank and a double
    quote; and [import], a blank and an opening parenthesis. *)
Definition single_marker : string := "import " +:+ String dq "".
Definition block_marker : string := "import (".

(** The value appended for a line holding [single_marker]. *)
Definition single_import (rev : revision) (split : list string)
    : panic + string :=
  match index split 1 with
  | inl p => inl p
  | inr s =>
      match rev with
      | MainGo => inr s
      | Later => slice s 1 (len s - 1)
      end
  end.

(** The value appended for a line inside an import block:
    [imp[1:len(imp)-1]], where [imp] is [split[1]] when the line has two
    fields and [split[0]] otherwise. *)
Definition block_import (split : list string) : panic + string :=
  match (if llen split =? 2 then index split 1 else index split 0) with
  | inl p => inl p
  | inr imp => slice imp 1 (len imp - 1)
  end.

(** The threshold of [linesWithoutImport]. *)
Definition threshold : Z := 5.

Definition parse_result : Type :=
  outcome (list string * option error) * Reader.

(** The two nested [for] loops.  [scan] is the outer loop, at the head of
    an iteration with the values of [imports] and [linesWithoutImport];
    [scan_block] is the inner loop, whose [break] goes on with the test
    [linesWithoutImport >= 5] that ends the outer iteration.  Each
    iteration reads one line, so both recurse on the reader. *)
Fixpoint scan (rev : revision) (r : Reader) (imports : list string)
    (linesWithoutImport : Z) {struct r} : parse_result :=
  match r with
  | Fail _ err => (Returns ([], Some err), Fail EmptyString err)
  | Line line r' =>
      if String.eqb (TrimSpace line) EmptyString
      then scan rev r' imports (int_incr linesWithoutImport)
      else if Contains line single_marker
      then match single_import rev (Fields line) with
           | inl p => (Panics p, r')
           | inr s => scan rev r' (imports ++ [s]) linesWithoutImport
           end
      else if Contains line block_marker
      then scan_block rev r' imports linesWithoutImport
      else
        let linesWithoutImport := int_incr linesWithoutImport in
        if threshold <=? linesWithoutImport
        then (Returns (imports, None), r')
        else scan rev r' imports linesWithoutImport
  end

with scan_block (rev : revision) (r : Reader) (imports : list string)
    (linesWithoutImport : Z) {struct r} : parse_result :=
  match r with
  | Fail _ err => (Returns ([], Some err), Fail EmptyString err)
  | Line line r' =>
      let ts := TrimSpace line in
      if String.eqb ts ")"
      then if threshold <=? linesWithoutImport
           then (Returns (imports, None), r')
           else scan rev r' imports linesWithoutImport
      else if String.eqb ts EmptyString
      then scan_block rev r' imports linesWithoutImport
      else match block_import (Fields line) with
           | inl p => (Panics p, r')
           | inr s => scan_block rev r' (imports ++ [s]) linesWithoutImport
           end
  end.

Definition ParseFileForImportsRev (rev : revision) (r : Reader)
    : parse_result :=
  scan rev r [] 0.

(** [ParseFileForImports] of [main.go]. *)
Definition ParseFileForImports (r : Reader) : parse_result :=
  ParseFileForImportsRev MainGo r.

(* ===================================================================== *)
(** ** [GetPackageName] *)
(* ===================================================================== *)

Record FileReader : Type := { f_Name : string; f_R : Reader }.

Record Directory : Type := { d_Name : string; d_Files : list FileReader }.

(** The three errors [GetPackageName] builds with [fmt.Errorf]. *)
Definition malformed_package_line (line name : string) : error :=
  errorString
    ("error: malformed package line: " +:+ line +:+ " in file " +:+ name).

Definition no_package_found (dir : string) : error :=
  errorString ("could not find a package in dir " +:+ dir).

Definition more_than_one_package (dir : string) : error :=
  errorString ("more than one package declaration in folder " +:+ dir).

(** The tests after the loop over [d.Files]: [seen] is the map used as a
    set, [pkg_name] the variable assigned in each iteration. *)
Definition package_result (dir : string) (seen : gset string)
    (pkg_name : string) : string * option error :=
  if (size seen =? 0)%nat
  then (EmptyString, Some (no_package_found dir))
  else if negb (size seen =? 1)%nat
  then (EmptyString, Some (more_than_one_package dir))
  else (pkg_name, None).

(** The loop over [d.Files], followed by the tests after it.  The files
    come back with their readers advanced by the line read: the readers are
    shared with the caller. *)
Fixpoint package_loop (dir : string) (files : list FileReader)
    (seen : gset string) (pkg_name : string)
    : (string * option error) * list FileReader :=
  match files with
  | [] => (package_result dir seen pkg_name, [])
  | r :: files' =>
      let '((line, err), rd) := ReadString (f_R r) in
      let r' := {| f_Name := f_Name r; f_R := rd |} in
      match err with
      | Some e => ((EmptyString, Some e), r' :: files')
      | None =>
          match Fields line with
          | [kw; name] =>
              if String.eqb kw "package"
              then
                let '(res, files'') :=
                  package_loop dir files' ({[ name ]} ∪ seen) name in
                (res, r' :: files'')
              else
                ((EmptyString, Some (malformed_package_line line (f_Name r))),
                 r' :: files')
          | _ =>
              ((EmptyString, Some (malformed_package_line line (f_Name r))),
               r' :: files')
          end
      end
  end.

Definition GetPackageName (d : Directory)
    : (string * option error) * Directory :=
  let '(res, files) := package_loop (d_Name d) (d_Files d) ∅ EmptyString in
  (res, {| d_Name := d_Name d; d_Files := files |}).

(* ===================================================================== *)
(** ** [FilterDependencies], [GetGoFiles] and [main] *)
(* ===================================================================== *)

(** [filepath.Ext(path)]: the suffix from the last dot of the last
    element of the path. *)
Fixpoint ext_go (reversed acc : string) : string :=
  match reversed with
  | EmptyString => EmptyString
  | String c rest =>
      if Ascii.eqb c "/"%char then EmptyString
      else if Ascii.eqb c "."%char then String c acc
      else ext_go rest (String c acc)
  end.

Definition Ext (path : string) : string := ext_go (String.rev path) EmptyString.

(** [slices.Contains(s, v)]. *)
Definition slices_Contains (s : list string) (v : string) : bool :=
  existsb (String.eqb v) s.

(** The field of [build.Package] the program reads. *)
Record build_Package : Type := { Goroot : bool }.

Record DirEntry : Type := { e_Name : string; e_IsDir : bool }.

Record Package : Type := { p_Name : string; p_Deps : list string }.

(** [Package] in the later revision. *)
Record LaterPackage : Type :=
  { l_Name : string; l_Path : string; l_Deps : list string }.

(** What a run of the program does: it writes to standard output and
    exits with a status, or it panics. *)
Inductive run : Type :=
| Exit (stdout : list string) (code : Z)
| Crash (stdout : list string) (p : panic).

(** Where one iteration of the loop over the directories ends. *)
Inductive iteration : Type :=
| Next (pkgs : list Package) (errs : list error)
| Stop (r : run).

(** The prefix of the extended standard name space. *)
Definition golang_x : string := "golang.org/x/".

(* ===================================================================== *)
(** ** Package [flag] *)
(* ===================================================================== *)

(** [strconv.ParseBool], which sets a boolean flag from a value. *)
Definition ParseBool (s : string) : option bool :=
  if existsb (String.eqb s) ["1"; "t"; "T"; "TRUE"; "true"; "True"]
  then Some true
  else if existsb (String.eqb s) ["0"; "f"; "F"; "FALSE"; "false"; "False"]
  then Some false
  else None.

(** A flag's name and value: the text is cut at its first [=]. *)
Fixpoint cut_equals (s : string) : string * option string :=
  match s with
  | EmptyString => (EmptyString, None)
  | String c s' =>
      if Ascii.eqb c "="%char then (EmptyString, Some s')
      else let '(name, value) := cut_equals s' in (String c name, value)
  end.

(** What [parseOne] makes of one argument of the command line, the only
    flag defined being the boolean [no-std]: no flag (the argument stays),
    the terminator [--], an error, the request for help, or a value of the
    flag. *)
Inductive flag_arg : Type :=
| NotAFlag
| Terminator
| BadFlag
| HelpFlag
| NoStd (value : bool).

Definition parse_arg (s : string) : flag_arg :=
  match s with
  | String c0 (String c1 s2) =>
      if negb (Ascii.eqb c0 "-"%char) then NotAFlag
      else if Ascii.eqb c1 "-"%char && String.eqb s2 EmptyString
      then Terminator
      else
        match (if Ascii.eqb c1 "-"%char then s2 else String c1 s2) with
        | EmptyString => BadFlag
        | String n0 rest =>
            if Ascii.eqb n0 "-"%char || Ascii.eqb n0 "="%char then BadFlag
            else
              let '(tail, value) := cut_equals rest in
              let name := String n0 tail in
              if String.eqb name "no-std"
              then match value with
                   | None => NoStd true
                   | Some v =>
                       match ParseBool v with
                       | Some b => NoStd b
                       | None => BadFlag
                       end
                   end
              else if String.eqb name "help" || String.eqb name "h"
              then HelpFlag
              else BadFlag
        end
  | _ => NotAFlag
  end.

(** [flag.Parse()] on the arguments after the program name, with the
    error handling [ExitOnError] of [flag.CommandLine]: the value of
    [no-std] and [flag.Args()], or the exit status, 0 after a request for
    help and 2 after an error. *)
Inductive parsed : Type :=
| Parsed (noStd : bool) (args : list string)
| ParseExit (code : Z).

Fixpoint flag_Parse (noStd : bool) (arguments : list string) : parsed :=
  match arguments with
  | [] => Parsed noStd []
  | s :: rest =>
      match parse_arg s with
      | NotAFlag => Parsed noStd arguments
      | Terminator => Parsed noStd rest
      | BadFlag => ParseExit 2
      | HelpFlag => ParseExit 0
      | NoStd b => flag_Parse b rest
      end
  end.

Section Program.

(** The environment of a run: the toolchain lookup
    [build.Import(d, "", build.FindOnly)], [filepath.Join] on two
    elements, [os.ReadDir], and [os.Open] followed by [bufio.NewReader]. *)
Variable build_Import : string -> build_Package * option error.
Variable filepath_Join : string -> string -> string.
Variable os_ReadDir : string -> list DirEntry * option error.
Variable os_Open : string -> Reader * option error.

(** Whether the loop of [FilterDependencies] skips [d]. *)
Definition excluded (noStd : bool) (d : string) : bool :=
  if noStd
  then
    let '(pkg, err) := build_Import d in
    Contains d golang_x
    || (match err with None => true | Some _ => false end && Goroot pkg)
  else false.

Definition FilterDependencies (deps : list string) (external noStd : bool)
    : list string :=
  fold_left
    (fun ret d => if excluded noStd d then ret else ret ++ [d])
    deps [].

Definition GetGoFiles (dir_name : string) (dir : list DirEntry)
    : list string :=
  fold_left
    (fun go_files f =>
       if HasPrefix (e_Name f) "." then go_files
       else if e_IsDir f then go_files
       else
         let n := filepath_Join dir_name (e_Name f) in
         if String.eqb (Ext n) ".go" then go_files ++ [n] else go_files)
    dir [].

(** The loop opening the files of a directory. *)
Fixpoint open_files (go_files : list string) (files : list FileReader)
    (errs : list error) : list FileReader * list error :=
  match go_files with
  | [] => (files, errs)
  | g :: rest =>
      let '(f, err) := os_Open g in
      match err with
      | Some e => open_files rest files (errs ++ [e])
      | None =>
          open_files rest (files ++ [{| f_Name := g; f_R := f |}]) errs
      end
  end.

(** The loop appending the imports of one file that are not yet there. *)
Definition add_imports (imports i : list string) : list string :=
  fold_left
    (fun imports s =>
       if negb (slices_Contains imports s) then imports ++ [s] else imports)
    i imports.

(** The loop over the files of a directory that gathers the imports,
    with the [ParseFileForImports] of the revision. *)
Fixpoint gather_imports (rev : revision) (files : list FileReader)
    (imports : list string) (errs : list error)
    : outcome (list string * list error) :=
  match files with
  | [] => Returns (imports, errs)
  | f :: rest =>
      match fst (ParseFileForImportsRev rev (f_R f)) with
      | Panics p => Panics p
      | Returns (_, Some e) => gather_imports rev rest imports (errs ++ [e])
      | Returns (i, None) =>
          gather_imports rev rest (add_imports imports i) errs
      end
  end.

(** The body of [for _, d := range args]. *)
Definition loop_body (d : string) (pkgs : list Package) (errs : list error)
    : iteration :=
  let '(entry, err) := os_ReadDir d in
  match err with
  | Some e =>
      Stop (Exit [ln ("error reading directory: " +:+ Error e)] 1)
  | None =>
      let go_files := GetGoFiles d entry in
      if llen go_files =? 0
      then Next pkgs
             (errs ++ [errorString ("error: no .go files in " +:+ d)])
      else
        let '(files, errs) := open_files go_files [] errs in
        let '((pkg_name, err), dir) :=
          GetPackageName {| d_Name := d; d_Files := files |} in
        match err with
        | Some e => Next pkgs (errs ++ [e])
        | None =>
            match gather_imports MainGo (d_Files dir) [] errs with
            | Panics p => Stop (Crash [] p)
            | Returns (imports, errs) =>
                Next (pkgs ++ [{| p_Name := pkg_name; p_Deps := imports |}])
                  errs
            end
        end
  end.

Fixpoint main_loop (args : list string) (pkgs : list Package)
    (errs : list error) : iteration :=
  match args with
  | [] => Next pkgs errs
  | d :: args' =>
      match loop_body d pkgs errs with
      | Next pkgs errs => main_loop args' pkgs errs
      | Stop r => Stop r
      end
  end.

(** The lines printed for the packages when no error was recorded. *)
Definition print_packages (noStd : bool) (pkgs : list Package)
    : list string :=
  flat_map
    (fun p =>
       map (fun d => ln (p_Name p +:+ " " +:+ d))
         (FilterDependencies (p_Deps p) false noStd))
    pkgs.

(** [main] after [flag.Parse()]: [args] is [flag.Args()] and [noStd] the
    value of the flag [-no-std]. *)
Definition main_parsed (args : list string) (noStd : bool) : run :=
  if llen args =? 0
  then Exit [] 1
  else
    match main_loop args [] [] with
    | Stop r => r
    | Next pkgs errs =>
        if negb (llen errs =? 0)
        then Exit (ln "errors:" :: map (fun e => ln (Error e)) errs) 1
        else Exit (print_packages noStd pkgs) 0
    end.

(** [main], on the arguments of the command line after the program name.
    The usage text and the messages of [flag] go to standard error and are
    not part of [stdout]. *)
Definition main (arguments : list string) : run :=
  match flag_Parse false arguments with
  | ParseExit code => Exit [] code
  | Parsed noStd args => main_parsed args noStd
  end.

(** *** The loop of the later revision of [main]

    It differs from the loop of [main.go] in three places: a directory
    that cannot be listed and a directory without [.go] file are skipped
    and nothing is recorded for them, and a package keeps the path of its
    directory and its dependencies already filtered
    ([FilterDependencies] has lost the parameter it never read). *)
Definition loop_body_later (noStd : bool) (d : string)
    (pkgs : list LaterPackage) (errs : list error)
    : outcome (list LaterPackage * list error) :=
  let '(entry, err) := os_ReadDir d in
  match err with
  | Some _ => Returns (pkgs, errs)
  | None =>
      let go_files := GetGoFiles d entry in
      if llen go_files =? 0
      then Returns (pkgs, errs)
      else
        let '(files, errs) := open_files go_files [] errs in
        let '((pkg_name, err), dir) :=
          GetPackageName {| d_Name := d; d_Files := files |} in
        match err with
        | Some e => Returns (pkgs, errs ++ [e])
        | None =>
            match gather_imports Later (d_Files dir) [] errs with
            | Panics p => Panics p
            | Returns (imports, errs) =>
                Returns
                  (pkgs
                     ++ [{| l_Name := pkg_name; l_Path := d;
                            l_Deps :=
                              FilterDependencies imports false noStd |}],
                   errs)
            end
        end
  end.

Fixpoint main_loop_later (noStd : bool) (args : list string)
    (pkgs : list LaterPackage) (errs : list error)
    : outcome (list LaterPackage * list error) :=
  match args with
  | [] => Returns (pkgs, errs)
  | d :: args' =>
      match loop_body_later noStd d pkgs errs with
      | Returns (pkgs, errs) => main_loop_later noStd args' pkgs errs
      | Panics p => Panics p
      end
  end.

End Program.

(* ===================================================================== *)
(** ** Vocabulary of the statements *)
(* ===================================================================== *)

(** A reader that yields the lines [ls] and then behaves as [r]. *)
Definition prepend (ls : list string) (r : Reader) : Reader :=
  fold_right Line r ls.

(** The error a reader fails with once its lines are read. *)
Fixpoint final_err (r : Reader) : error :=
  match r with
  | Line _ rest => final_err rest
  | Fail _ err => err
  end.

(** The four cases the outer loop distinguishes on a line, in the order of
    its tests. *)
Definition is_blank (line : string) : bool :=
  String.eqb (TrimSpace line) EmptyString.

Definition is_single (line : string) : bool :=
  negb (is_blank line) && Contains line single_marker.

Definition is_block_open (line : string) : bool :=
  negb (is_blank line) && negb (Contains line single_marker)
  && Contains line block_marker.

Definition is_other (line : string) : bool :=
  negb (is_blank line) && negb (Contains line single_marker)
  && negb (Contains line block_marker).


(** The line that ends an import block. *)
Definition is_block_close (line : string) : bool :=
  String.eqb (TrimSpace line) ")".

(** The number of lines of a reader at which [linesWithoutImport] is
    incremented when the reader is read to its failure: the blank and the
    other lines outside import blocks.  [counted] starts outside a block,
    [counted_block] inside one. *)
Fixpoint counted (r : Reader) : nat :=
  match r with
  | Fail _ _ => 0
  | Line line r' =>
      if is_blank line then S (counted r')
      else if Contains line single_marker then counted r'
      else if Contains line block_marker then counted_block r'
      else S (counted r')
  end
with counted_block (r : Reader) : nat :=
  match r with
  | Fail _ _ => 0
  | Line line r' =>
      if is_block_close line then counted r' else counted_block r'
  end.













(** The first line of a file, when its first read succeeds, and the name a
    line declares when it has the two fields [package] and a name. *)
Definition first_line (f : FileReader) : option string :=
  match f_R f with
  | Line line _ => Some line
  | Fail _ _ => None
  end.

Definition declares (line : string) : option string :=
  match Fields line with
  | [kw; name] => if String.eqb kw "package" then Some name else None
  | _ => None
  end.

(** Lines used in the examples. *)
Definition import_line (path : string) : string :=
  ln ("import " +:+ quoted path).

Definition blank_line : string := ln EmptyString.

(** A file that is a single-line import of [fmt] followed by five blank
    lines, and the reader over such lines followed by [rest]. *)
Definition fmt_then_blanks : string :=
  import_line "fmt" +:+ blank_line +:+ blank_line +:+ blank_line
  +:+ blank_line +:+ blank_line.

Definition fmt_then_blanks_reader (rest : Reader) : Reader :=
  Line (import_line "fmt") (prepend (repeat blank_line 5) rest).

(** The lines of the import block of the two paths [a] and [b], the second
    one under the alias [foo]. *)
Definition block_a_b : list string :=
  [ ln "import ("; ln (String tab (quoted "a"));
    ln (String tab ("foo " +:+ quoted "b")); ln ")" ].

(** The text of that block alone, with and without the newline after the
    closing parenthesis. *)
Definition block_text_open : string :=
  ln "import (" +:+ ln (String tab (quoted "a"))
  +:+ ln (String tab ("foo " +:+ quoted "b")) +:+ ")".

Definition block_text : string := ln block_text_open.

(** Five lines that are neither blank nor imports. *)
Definition five_others : list string :=
  [ ln "func main() {"; ln "x := 1"; ln "y := 2"; ln "z := 3"; ln "}" ].


(** The package a file declares on its first line. *)
Definition declared (f : FileReader) : option string :=
  match first_line f with
  | Some line => declares line
  | None => None
  end.

(** Whether [build.Import] found the package and reports it under the root
    of the installation. *)
Definition in_goroot (found : build_Package * option error) : bool :=
  match snd found with
  | None => Goroot (fst found)
  | Some _ => false
  end.

(** A toolchain that knows the package [fmt] of the standard library and
    fails on every other path, and one that fails on every path. *)
Definition cannot_find (d : string) : error :=
  errorString ("cannot find package " +:+ d).

Definition toolchain (d : string) : build_Package * option error :=
  if String.eqb d "fmt"
  then ({| Goroot := true |}, None)
  else ({| Goroot := false |}, Some (cannot_find d)).

Definition no_toolchain (d : string) : build_Package * option error :=
  ({| Goroot := false |}, Some (cannot_find d)).

(** A file system with the directory [good], holding the file [a.go] of
    package [foo], the directory [empty] with no file, the directory
    [mixed] with a file that starts with no package line, and nothing
    else. *)
Definition join (dir name : string) : string := dir +:+ "/" +:+ name.

Definition no_such_directory (d : string) : error :=
  errorString ("open " +:+ d +:+ ": no such file or directory").

Definition a_go : string :=
  ln "package foo" +:+ import_line "os" +:+ ln "func main() {"
  +:+ ln "x := 1" +:+ ln "y := 2" +:+ ln "z := 3" +:+ ln "}".

Definition read_dir (d : string) : list DirEntry * option error :=
  if String.eqb d "good"
  then ([{| e_Name := "a.go"; e_IsDir := false |}], None)
  else if String.eqb d "empty" then ([], None)
  else if String.eqb d "mixed"
  then ([{| e_Name := "b.go"; e_IsDir := false |}], None)
  else ([], Some (no_such_directory d)).

Definition open_file (g : string) : Reader * option error :=
  if String.eqb g "good/a.go" then (NewReader a_go, None)
  else if String.eqb g "mixed/b.go" then (NewReader (ln "// a comment"), None)
  else (Fail EmptyString io_EOF, Some (no_such_directory g)).

(** Files of the examples: two of package [foo], one of package [bar], and
    one whose first line has three fields. *)
Definition foo_1 : FileReader :=
  {| f_Name := "x/a.go"; f_R := NewReader a_go |}.

Definition foo_2 : FileReader :=
  {| f_Name := "x/b.go"; f_R := NewReader (ln "package   foo ") |}.

Definition bar_1 : FileReader :=
  {| f_Name := "x/c.go"; f_R := NewReader (ln "package bar") |}.


Definition dir_of (files : list FileReader) : Directory :=
  {| d_Name := "x"; d_Files := files |}.

(** The test of [GetGoFiles] on one entry of the directory [dir_name]. *)
Definition is_go_file (filepath_Join : string -> string -> string)
    (dir_name : string) (f : DirEntry) : bool :=
  negb (HasPrefix (e_Name f) ".") && negb (e_IsDir f)
  && String.eqb (Ext (filepath_Join dir_name (e_Name f))) ".go".

(** The number of files at the head of a list that start with a package
    line. *)
Fixpoint declared_prefix (files : list FileReader) : nat :=
  match files with
  | [] => 0
  | f :: files' =>
      match declared f with
      | Some _ => S (declared_prefix files')
      | None => 0
      end
  end.

(** A file once a line has been read from it. *)
Definition advance (f : FileReader) : FileReader :=
  {| f_Name := f_Name f; f_R := snd (ReadString (f_R f)) |}.

(** A file holding a package line without the newline that ends it, and
    an empty file. *)
Definition unterminated : FileReader :=
  {| f_Name := "x/e.go"; f_R := NewReader "package foo" |}.


(** Two files past their package line: the first imports [os] and [fmt],
    the second [fmt] and [io]; each goes on with five lines that are no
    imports. *)
Definition imports_os_fmt : FileReader :=
  {| f_Name := "x/a.go";
     f_R := prepend [import_line "os"; import_line "fmt"]
              (prepend five_others (Fail EmptyString io_EOF)) |}.

Definition imports_fmt_io : FileReader :=
  {| f_Name := "x/b.go";
     f_R := prepend [import_line "fmt"; import_line "io"]
              (prepend five_others (Fail EmptyString io_EOF)) |}.

(** Whether no line of a reader satisfies [p]. *)
Fixpoint no_line (p : string -> bool) (r : Reader) : bool :=
  match r with
  | Line line rest => negb (p line) && no_line p rest
  | Fail _ _ => true
  end.

(** The lines after which a scan can stop with success. *)
Definition can_stop (line : string) : bool :=
  is_other line || is_block_close line.

(** Whether every byte of a string is at least 128, as are the bytes that
    follow the first one in the encoding of a rune. *)
Fixpoint high (t : string) : bool :=
  match t with
  | EmptyString => true
  | String (Ascii _ _ _ _ _ _ _ b7) t' => b7 && high t'
  end.

(** The bytes the scan of [Fields] still has to drop are there, and are
    the end of the encoding of a white-space rune. *)
Definition dropping (skip : nat) (s : string) : Prop :=
  exists t rest, s = t +:+ rest /\ String.length t = skip /\ high t = true.

(* ===================================================================== *)
(** ** Arithmetic and strings *)
(* ===================================================================== *)

Lemma int_incr_small (c : Z) :
  - 2 ^ 63 <= c < 2 ^ 63 - 1 -> int_incr c = c + 1.
Proof.
  intros Hc. unfold int_incr, int_wrap.
  rewrite Z.mod_small by lia. lia.
Qed.

Lemma substring_init (s t : string) :
  String.substring 0 (String.length s) (s +:+ t) = s.
Proof.
  induction s as [|a s IH]; simpl.
  - now destruct t.
  - now rewrite IH.
Qed.

Lemma length_app_one (s : string) (a : ascii) :
  String.length (s +:+ String a EmptyString) = S (String.length s).
Proof. induction s as [|b s IH]; simpl; [reflexivity | now rewrite IH]. Qed.

(** Slicing off the first and the last byte of a quoted string gives the
    string between the quotes. *)
Lemma slice_quoted (p : string) :
  slice (quoted p) 1 (len (quoted p) - 1) = inr p.
Proof.
  unfold slice, len, quoted. simpl String.length.
  rewrite length_app_one.
  replace (Z.of_nat (S (S (String.length p))) - 1)
    with (Z.of_nat (S (String.length p))) by lia.
  destruct (_ && _) eqn:Hb.
  - f_equal. replace (Z.of_nat (S (String.length p)) - 1)
      with (Z.of_nat (String.length p)) by lia.
    rewrite Nat2Z.id. change (Z.to_nat 1) with 1%nat. simpl.
    apply substring_init.
  - exfalso. rewrite !andb_false_iff in Hb.
    destruct Hb as [[Hb | Hb] | Hb];
      [apply Z.leb_gt in Hb | apply Z.leb_gt in Hb | apply Z.leb_gt in Hb];
      lia.
Qed.

Lemma quoted_neq (p : string) : quoted p <> p.
Proof.
  intros H. apply (f_equal String.length) in H.
  unfold quoted in H. simpl in H. rewrite length_app_one in H. lia.
Qed.

(* ===================================================================== *)
(** ** One iteration of the loops of [ParseFileForImports] *)
(* ===================================================================== *)

Section Iterations.

Variable rev : revision.
Variables (line : string) (r : Reader) (imports : list string) (c : Z).

(** A blank line: the counter is incremented and [continue] goes to the
    next read, past the test of the threshold. *)
Lemma scan_blank :
  is_blank line = true ->
  scan rev (Line line r) imports c = scan rev r imports (int_incr c).
Proof. unfold is_blank. intros H. simpl. now rewrite H. Qed.

Lemma scan_single (s : string) :
  is_single line = true ->
  single_import rev (Fields line) = inr s ->
  scan rev (Line line r) imports c = scan rev r (imports ++ [s]) c.
Proof.
  unfold is_single, is_blank. intros H Hs. simpl.
  apply andb_true_iff in H as [Hb Hc].
  apply negb_true_iff in Hb. now rewrite Hb, Hc, Hs.
Qed.

Lemma scan_block_open :
  is_block_open line = true ->
  scan rev (Line line r) imports c = scan_block rev r imports c.
Proof.
  unfold is_block_open, is_blank. intros H. simpl.
  apply andb_true_iff in H as [H Hc].
  apply andb_true_iff in H as [Hb Hs].
  apply negb_true_iff in Hb. apply negb_true_iff in Hs.
  now rewrite Hb, Hs, Hc.
Qed.

Lemma scan_other :
  is_other line = true ->
  scan rev (Line line r) imports c =
    if threshold <=? int_incr c
    then (Returns (imports, None), r)
    else scan rev r imports (int_incr c).
Proof.
  unfold is_other, is_blank. intros H. simpl.
  apply andb_true_iff in H as [H Hc].
  apply andb_true_iff in H as [Hb Hs].
  apply negb_true_iff in Hb. apply negb_true_iff in Hs.
  apply negb_true_iff in Hc.
  now rewrite Hb, Hs, Hc.
Qed.

Lemma scan_block_close :
  is_block_close line = true ->
  scan_block rev (Line line r) imports c =
    if threshold <=? c
    then (Returns (imports, None), r)
    else scan rev r imports c.
Proof. unfold is_block_close. intros H. simpl. now rewrite H. Qed.

Lemma scan_block_blank :
  is_block_close line = false ->
  is_blank line = true ->
  scan_block rev (Line line r) imports c = scan_block rev r imports c.
Proof.
  unfold is_block_close, is_blank. intros H Hb. simpl. now rewrite H, Hb.
Qed.

Lemma scan_block_line (s : string) :
  is_block_close line = false ->
  is_blank line = false ->
  block_import (Fields line) = inr s ->
  scan_block rev (Line line r) imports c =
    scan_block rev r (imports ++ [s]) c.
Proof.
  unfold is_block_close, is_blank. intros H Hb Hs. simpl.
  now rewrite H, Hb, Hs.
Qed.

Lemma scan_block_panic (p : panic) :
  is_block_close line = false ->
  is_blank line = false ->
  block_import (Fields line) = inl p ->
  scan_block rev (Line line r) imports c = (Panics p, r).
Proof.
  unfold is_block_close, is_blank. intros H Hb Hs. simpl.
  now rewrite H, Hb, Hs.
Qed.

End Iterations.

(** The four cases of the outer loop are exclusive and exhaustive. *)
Lemma line_cases (line : string) :
  is_blank line = true \/ is_single line = true
  \/ is_block_open line = true \/ is_other line = true.
Proof.
  unfold is_single, is_block_open, is_other.
  destruct (is_blank line), (Contains line single_marker),
    (Contains line block_marker); simpl; auto.
Qed.

(** The value a block line contributes, by the number of its fields. *)
Lemma block_import_two (alias tok : string) :
  block_import [alias; tok] = slice tok 1 (len tok - 1).
Proof. reflexivity. Qed.

Lemma block_import_first (tok : string) (more : list string) :
  List.length more <> 1%nat ->
  block_import (tok :: more) = slice tok 1 (len tok - 1).
Proof.
  intros H. unfold block_import, llen.
  destruct (_ =? 2) eqn:E.
  - apply Z.eqb_eq in E. simpl in E. lia.
  - reflexivity.
Qed.

(* ===================================================================== *)
(** ** Whole runs of the loops *)
(* ===================================================================== *)

Lemma scan_Line (rev : revision) (line : string) (r : Reader)
    (imports : list string) (c : Z) :
  scan rev (Line line r) imports c =
    if is_blank line then scan rev r imports (int_incr c)
    else if Contains line single_marker
    then match single_import rev (Fields line) with
         | inl p => (Panics p, r)
         | inr s => scan rev r (imports ++ [s]) c
         end
    else if Contains line block_marker then scan_block rev r imports c
    else if threshold <=? int_incr c
    then (Returns (imports, None), r)
    else scan rev r imports (int_incr c).
Proof. reflexivity. Qed.

(** Each iteration starts with [r.ReadString] and returns its error. *)
Lemma scan_ReadString (rev : revision) (r : Reader) (imports : list string)
    (c : Z) :
  scan rev r imports c =
    (let '((line, err), r') := ReadString r in
     match err with
     | Some e => (Returns ([], Some e), r')
     | None => scan rev (Line line r') imports c
     end)
  /\ scan_block rev r imports c =
       (let '((line, err), r') := ReadString r in
        match err with
        | Some e => (Returns ([], Some e), r')
        | None => scan_block rev (Line line r') imports c
        end).
Proof. destruct r; split; reflexivity. Qed.

Lemma scan_block_Line (rev : revision) (line : string) (r : Reader)
    (imports : list string) (c : Z) :
  scan_block rev (Line line r) imports c =
    if is_block_close line
    then if threshold <=? c
         then (Returns (imports, None), r)
         else scan rev r imports c
    else if is_blank line then scan_block rev r imports c
    else match block_import (Fields line) with
         | inl p => (Panics p, r)
         | inr s => scan_block rev r (imports ++ [s]) c
         end.
Proof. reflexivity. Qed.

(** Case analysis on the tests of one iteration, in a hypothesis [H] that
    equates the result of the iteration with something. *)
Ltac iteration_cases H :=
  repeat match type of H with
         | context [if ?b then _ else _] => destruct b eqn:?
         | context [match ?x with inl _ => _ | inr _ => _ end] =>
             destruct x eqn:?
         end.

(** A run that returns an error returns no import, the error is the one
    the reader fails with, and the reader is left at its failure. *)
Lemma scan_error (rev : revision) (r : Reader) :
  (forall imports c imps e rd,
      scan rev r imports c = (Returns (imps, Some e), rd) ->
      imps = [] /\ e = final_err r /\ rd = Fail EmptyString e)
  /\ (forall imports c imps e rd,
         scan_block rev r imports c = (Returns (imps, Some e), rd) ->
         imps = [] /\ e = final_err r /\ rd = Fail EmptyString e).
Proof.
  induction r as [line r [IHs IHb] | data err]; split;
    intros imports c imps e rd H.
  - rewrite scan_Line in H. iteration_cases H;
      try discriminate; simpl final_err; eauto.
  - rewrite scan_block_Line in H. iteration_cases H;
      try discriminate; simpl final_err; eauto.
  - simpl in H. inversion H; subst. auto.
  - simpl in H. inversion H; subst. auto.
Qed.

(** A run that succeeds returns the imports it started with, followed by
    those it found. *)
Lemma scan_success_prefix (rev : revision) (r : Reader) :
  (forall imports c imps rd,
      scan rev r imports c = (Returns (imps, None), rd) ->
      exists more, imps = imports ++ more)
  /\ (forall imports c imps rd,
         scan_block rev r imports c = (Returns (imps, None), rd) ->
         exists more, imps = imports ++ more).
Proof.
  induction r as [line r [IHs IHb] | data err]; split;
    intros imports c imps rd H.
  - rewrite scan_Line in H. iteration_cases H; try discriminate.
    + eauto.
    + apply IHs in H as [more ->]. rewrite <- app_assoc. eauto.
    + eauto.
    + inversion H; subst. exists []. now rewrite app_nil_r.
    + eauto.
  - rewrite scan_block_Line in H. iteration_cases H; try discriminate.
    + inversion H; subst. exists []. now rewrite app_nil_r.
    + eauto.
    + eauto.
    + apply IHb in H as [more ->]. rewrite <- app_assoc. eauto.
  - simpl in H. discriminate.
  - simpl in H. discriminate.
Qed.

(** A run succeeds only through the test of the threshold: when the
    counter, incremented at each counted line of the reader, stays below
    the threshold, the run does not succeed. *)
Lemma scan_below_threshold (rev : revision) (r : Reader) :
  (forall imports c imps rd,
      0 <= c -> c + Z.of_nat (counted r) < threshold ->
      scan rev r imports c <> (Returns (imps, None), rd))
  /\ (forall imports c imps rd,
         0 <= c -> c + Z.of_nat (counted_block r) < threshold ->
         scan_block rev r imports c <> (Returns (imps, None), rd)).
Proof.
  unfold threshold.
  induction r as [line r [IHs IHb] | data err]; split;
    intros imports c imps rd Hc Hlt H.
  - rewrite scan_Line in H. simpl counted in Hlt. unfold threshold in H.
    iteration_cases H; try discriminate;
      try rewrite int_incr_small in * by lia.
    + eapply IHs; [| | exact H]; lia.
    + eapply IHs; [| | exact H]; lia.
    + eapply IHb; [| | exact H]; lia.
    + match goal with
      | Hle : (_ <=? _) = true |- _ => apply Z.leb_le in Hle; lia
      end.
    + eapply IHs; [| | exact H]; lia.
  - rewrite scan_block_Line in H. simpl counted_block in Hlt.
    unfold threshold in H.
    iteration_cases H; try discriminate.
    + match goal with
      | Hle : (_ <=? _) = true |- _ => apply Z.leb_le in Hle; lia
      end.
    + eapply IHs; [| | exact H]; lia.
    + eapply IHb; [| | exact H]; lia.
    + eapply IHb; [| | exact H]; lia.
  - simpl in H. discriminate.
  - simpl in H. discriminate.
Qed.

(* ===================================================================== *)
(** ** Single-line imports, blank lines and the threshold *)
(* ===================================================================== *)

Lemma fmt_then_blanks_split :
  NewReader fmt_then_blanks = fmt_then_blanks_reader (Fail EmptyString io_EOF).
Proof. reflexivity. Qed.

(** C1.  On a single-line import of [fmt] followed by five blank lines,
    [ParseFileForImports] does not stop at the fifth blank line: it goes on
    reading what follows, with the quoted token as its only import and the
    counter at 5.  It never returns the list holding [fmt] alone; at the end
    of the file it returns no import and the error [io.EOF]; and when a line
    that is no import follows, it reads that line and returns the token with
    its quotes. *)
Theorem import_then_five_blank_lines (rest : Reader) :
  ParseFileForImports (fmt_then_blanks_reader rest)
    = scan MainGo rest [quoted "fmt"] 5
  /\ (forall rd,
         ParseFileForImports (fmt_then_blanks_reader rest)
           <> (Returns (["fmt"], None), rd))
  /\ ParseFileForImports (NewReader fmt_then_blanks)
       = (Returns ([], Some io_EOF), Fail EmptyString io_EOF)
  /\ ParseFileForImports (fmt_then_blanks_reader (Line (ln "x") rest))
       = (Returns ([quoted "fmt"], None), rest).
Proof.
  assert (Hrun : forall r,
             ParseFileForImports (fmt_then_blanks_reader r)
               = scan MainGo r [quoted "fmt"] 5).
  { intros r. unfold ParseFileForImports, ParseFileForImportsRev,
      fmt_then_blanks_reader.
    rewrite (scan_single _ _ _ _ _ (quoted "fmt")) by reflexivity.
    simpl prepend.
    now rewrite !scan_blank by reflexivity. }
  split; [| split; [| split]].
  - apply Hrun.
  - intros rd H. rewrite Hrun in H.
    apply (proj1 (scan_success_prefix _ _)) in H as [more H].
    simpl in H. injection H as H _.
    now apply (quoted_neq "fmt").
  - rewrite fmt_then_blanks_split, Hrun. reflexivity.
  - rewrite Hrun. now rewrite scan_other by reflexivity.
Qed.

(** C3.  For the line holding the single-line import of [fmt], the loop of
    [main.go] appends the token with its quote characters, where the later
    revision of the same loop and the block form of the same import append
    the path without them. *)
Theorem single_import_keeps_quotes (r : Reader) (imports : list string)
    (c : Z) :
  scan MainGo (Line (import_line "fmt") r) imports c
    = scan MainGo r (imports ++ [quoted "fmt"]) c
  /\ quoted "fmt" <> "fmt"
  /\ scan Later (Line (import_line "fmt") r) imports c
       = scan Later r (imports ++ ["fmt"]) c
  /\ scan_block MainGo (Line (ln (String tab (quoted "fmt"))) r) imports c
       = scan_block MainGo r (imports ++ ["fmt"]) c.
Proof.
  split; [| split; [| split]].
  - now rewrite (scan_single _ _ _ _ _ (quoted "fmt")) by reflexivity.
  - apply quoted_neq.
  - now rewrite (scan_single _ _ _ _ _ "fmt") by reflexivity.
  - now rewrite (scan_block_line _ _ _ _ _ "fmt") by reflexivity.
Qed.

(* ===================================================================== *)
(** ** Import blocks *)
(* ===================================================================== *)

(** C6.  Inside an import block, a line whose token is a lone quote
    character makes the slice expression panic, in both revisions: no error
    is returned.  A token with an opening quote and no closing one loses its
    last byte without any report. *)
Theorem malformed_block_line_panics (rev : revision) (r : Reader)
    (imports : list string) (c : Z) :
  scan_block rev (Line (ln (String tab (String dq EmptyString))) r) imports c
    = (Panics (slice_bounds_out_of_range 1 0), r)
  /\ scan_block rev (Line (ln (String tab (String dq "fmt"))) r) imports c
       = scan_block rev r (imports ++ ["fm"]) c
  /\ ParseFileForImportsRev rev
       (NewReader
          (ln "import (" +:+ ln (String tab (String dq EmptyString))
           +:+ ln ")"))
       = (Panics (slice_bounds_out_of_range 1 0),
          Line (ln ")") (Fail EmptyString io_EOF)).
Proof.
  split; [| split].
  - now rewrite (scan_block_panic _ _ _ _ _ (slice_bounds_out_of_range 1 0))
      by reflexivity.
  - now rewrite (scan_block_line _ _ _ _ _ "fm") by reflexivity.
  - destruct rev; reflexivity.
Qed.

Lemma blank_not_close (line : string) :
  is_blank line = true -> is_block_close line = false.
Proof.
  unfold is_blank, is_block_close. intros H.
  apply String.eqb_eq in H. now rewrite H.
Qed.

(** Inside an import block a line that is neither blank nor the closing
    parenthesis contributes one path: its second field when it has
    exactly two fields (the alias is dropped), its first field otherwise,
    in both cases without the surrounding quotes; blank lines contribute
    nothing.  The block of the paths [a] and [foo b] contributes [a] and
    [b] in that order, and a source made of this block and of five lines
    that are no imports yields exactly these two. *)
Lemma block_import_order (rev : revision) (line p : string) (r : Reader)
    (imports : list string) (c : Z) :
  is_block_close line = false ->
  is_blank line = false ->
  (exists alias, Fields line = [alias; quoted p])
  \/ (exists more,
         Fields line = quoted p :: more /\ List.length more <> 1%nat) ->
  scan_block rev (Line line r) imports c
    = scan_block rev r (imports ++ [p]) c
  /\ (forall b, is_blank b = true ->
         scan_block rev (Line b r) imports c = scan_block rev r imports c)
  /\ scan rev (prepend block_a_b r) imports c
       = (if threshold <=? c
          then (Returns (imports ++ ["a"; "b"], None), r)
          else scan rev r (imports ++ ["a"; "b"]) c)
  /\ ParseFileForImportsRev rev (prepend block_a_b (prepend five_others r))
       = (Returns (["a"; "b"], None), r).
Proof.
  intros Hclose Hblank Hfields.
  assert (Hblock : forall r' imports' c',
             scan rev (prepend block_a_b r') imports' c'
               = (if threshold <=? c'
                  then (Returns (imports' ++ ["a"; "b"], None), r')
                  else scan rev r' (imports' ++ ["a"; "b"]) c')).
  { intros r' imports' c'. unfold block_a_b. simpl prepend.
    rewrite scan_block_open by reflexivity.
    rewrite (scan_block_line _ _ _ _ _ "a") by reflexivity.
    rewrite (scan_block_line _ _ _ _ _ "b") by reflexivity.
    rewrite scan_block_close by reflexivity.
    now rewrite <- app_assoc. }
  split; [| split; [| split]].
  - apply scan_block_line; [assumption | assumption |].
    destruct Hfields as [[alias ->] | [more [-> Hmore]]].
    + rewrite block_import_two. apply slice_quoted.
    + rewrite block_import_first by assumption. apply slice_quoted.
  - intros b Hb. apply scan_block_blank; [now apply blank_not_close | easy].
  - apply Hblock.
  - unfold ParseFileForImportsRev. rewrite Hblock.
    change (threshold <=? 0) with false. cbv iota.
    unfold five_others. simpl prepend. simpl app.
    now rewrite !scan_other by reflexivity.
Qed.

(** C7.  On the import block of [a] and [foo b] alone, with or without a
    newline after the closing parenthesis, [ParseFileForImports] returns no
    import and the error [io.EOF], in both revisions.  The two paths are
    extracted, in that order and without the alias: after the block the
    scan goes on with [a] and [b] as its imports and the counter at 0, and
    loses them at the failing read that follows. *)
Theorem block_alone_returns_eof (rev : revision) :
  NewReader block_text = prepend block_a_b (Fail EmptyString io_EOF)
  /\ ParseFileForImportsRev rev (NewReader block_text)
       = (Returns ([], Some io_EOF), Fail EmptyString io_EOF)
  /\ ParseFileForImportsRev rev (NewReader block_text_open)
       = (Returns ([], Some io_EOF), Fail EmptyString io_EOF)
  /\ (forall r,
         ParseFileForImportsRev rev (prepend block_a_b r)
           = scan rev r ["a"; "b"] 0).
Proof.
  split; [reflexivity | split; [| split]].
  - destruct rev; reflexivity.
  - destruct rev; reflexivity.
  - intros r. unfold ParseFileForImportsRev, block_a_b. simpl prepend.
    rewrite scan_block_open by reflexivity.
    rewrite (scan_block_line _ _ _ _ _ "a") by reflexivity.
    rewrite (scan_block_line _ _ _ _ _ "b") by reflexivity.
    now rewrite scan_block_close by reflexivity.
Qed.

(* ===================================================================== *)
(** ** Read failures *)
(* ===================================================================== *)

(** C9.  When the source fails before the counter can reach the threshold
    (fewer than five of its lines are counted), [ParseFileForImports] does
    not return a successful result: unless a malformed line makes it panic
    first, it returns the error the source fails with.  A failing read
    returns its error at once in the outer loop and inside an import block,
    whatever the state of the scan. *)
Theorem read_failure_is_returned (rev : revision) (r : Reader) :
  Z.of_nat (counted r) < threshold ->
  ((exists p, fst (ParseFileForImportsRev rev r) = Panics p)
   \/ ParseFileForImportsRev rev r
        = (Returns ([], Some (final_err r)), Fail EmptyString (final_err r)))
  /\ (forall data err imports c,
         scan rev (Fail data err) imports c
           = (Returns ([], Some err), Fail EmptyString err)
         /\ scan_block rev (Fail data err) imports c
              = (Returns ([], Some err), Fail EmptyString err)).
Proof.
  intros Hlt. split; [| now intros].
  unfold ParseFileForImportsRev.
  destruct (scan rev r [] 0) as [[[imps [e|]] | p] rd] eqn:H.
  - right. apply (proj1 (scan_error _ _)) in H as H'.
    destruct H' as (-> & -> & ->). reflexivity.
  - exfalso. revert H. apply (proj1 (scan_below_threshold _ _)); lia.
  - left. now exists p.
Qed.

Lemma read_failure_is_returned_witness :
  ParseFileForImports
      (NewReader (ln "import (" +:+ ln (String tab (quoted "fmt"))))
    = (Returns ([], Some io_EOF), Fail EmptyString io_EOF).
Proof.
  assert (Hlt : Z.of_nat
                  (counted
                     (NewReader
                        (ln "import (" +:+ ln (String tab (quoted "fmt")))))
                < threshold) by reflexivity.
  destruct (read_failure_is_returned MainGo _ Hlt) as [[[p Hp] | H] _].
  - vm_compute in Hp. discriminate Hp.
  - exact H.
Defined.

(** C10.  Whenever [ParseFileForImports] returns an error, the list it
    returns with it is empty: the imports found before the failing read
    are dropped. *)
Theorem error_returns_no_imports (rev : revision) (r : Reader)
    (imports : list string) (e : error) (rd : Reader) :
  ParseFileForImportsRev rev r = (Returns (imports, Some e), rd) ->
  imports = [].
Proof.
  intros H. now apply (proj1 (scan_error _ _)) in H.
Qed.

Lemma error_returns_no_imports_witness :
  ParseFileForImports (NewReader (import_line "fmt"))
    = (Returns ([], Some io_EOF), Fail EmptyString io_EOF)
  /\ scan MainGo (NewReader (import_line "fmt")) [] 0
       = scan MainGo (Fail EmptyString io_EOF) [quoted "fmt"] 0
  /\ @nil string = [].
Proof.
  split; [reflexivity | split; [reflexivity |]].
  apply (error_returns_no_imports MainGo (NewReader (import_line "fmt"))
           [] io_EOF (Fail EmptyString io_EOF)).
  reflexivity.
Defined.

(* ===================================================================== *)
(** ** The counter of lines without import *)
(* ===================================================================== *)









(* ===================================================================== *)
(** ** [FilterDependencies] *)
(* ===================================================================== *)

Lemma filter_loop (build_Import : string -> build_Package * option error)
    (noStd : bool) (deps ret : list string) :
  fold_left
    (fun ret d => if excluded build_Import noStd d then ret else ret ++ [d])
    deps ret
  = ret ++ List.filter (fun d => negb (excluded build_Import noStd d)) deps.
Proof.
  revert ret. induction deps as [|d deps IH]; intros ret; simpl.
  - now rewrite app_nil_r.
  - rewrite IH. destruct (excluded build_Import noStd d); simpl.
    + reflexivity.
    + now rewrite <- app_assoc.
Qed.

Lemma excluded_spec (build_Import : string -> build_Package * option error)
    (d : string) :
  excluded build_Import true d
    = Contains d golang_x || in_goroot (build_Import d).
Proof.
  unfold excluded, in_goroot.
  destruct (build_Import d) as [pkg [e|]]; simpl; reflexivity.
Qed.

(** C4, as stated, fails.  A path that holds the prefix of the extended
    standard name space in its middle is excluded, although it does not
    start with it and the lookup of the toolchain fails. *)
Lemma prefix_in_the_middle_is_excluded :
  HasPrefix "github.com/acme/golang.org/x/tools" golang_x = false
  /\ snd (no_toolchain "github.com/acme/golang.org/x/tools") <> None
  /\ FilterDependencies no_toolchain
       ["github.com/acme/golang.org/x/tools"] false true = [].
Proof. split; [reflexivity | split; [discriminate | reflexivity]]. Qed.

(** C4, amended.  With the flag set, [FilterDependencies] keeps, in their
    order, the paths that neither contain [golang.org/x/] anywhere nor are
    found by the toolchain under the root of the installation; a path whose
    lookup fails is kept unless it contains that prefix; without the flag
    every path is kept.  The example of the specification holds. *)
Theorem filter_excludes_by_substring
    (build_Import : string -> build_Package * option error)
    (deps : list string) (external : bool) :
  FilterDependencies build_Import deps external true
    = List.filter
        (fun d => negb (Contains d golang_x || in_goroot (build_Import d)))
        deps
  /\ FilterDependencies build_Import deps external false = deps
  /\ (forall d, In d deps -> Contains d golang_x = false ->
        snd (build_Import d) <> None ->
        In d (FilterDependencies build_Import deps external true))
  /\ FilterDependencies toolchain
       ["fmt"; "golang.org/x/tools"; "github.com/acme/widget"] external true
       = ["github.com/acme/widget"].
Proof.
  assert (Hfilter :
            FilterDependencies build_Import deps external true
              = List.filter
                  (fun d =>
                     negb (Contains d golang_x || in_goroot (build_Import d)))
                  deps).
  { unfold FilterDependencies. rewrite filter_loop, app_nil_l.
    apply List.filter_ext. intros d. now rewrite excluded_spec. }
  split; [exact Hfilter | split; [| split]].
  - unfold FilterDependencies. rewrite filter_loop, app_nil_l.
    rewrite (List.filter_ext _ (fun _ => true)) by reflexivity.
    clear Hfilter.
    induction deps as [|d deps IH]; simpl; [reflexivity | now rewrite IH].
  - intros d Hin Hc Hfail. rewrite Hfilter.
    apply List.filter_In. split; [assumption |].
    rewrite Hc. unfold in_goroot.
    destruct (snd (build_Import d)); [reflexivity | contradiction].
  - reflexivity.
Qed.

(* ===================================================================== *)
(** ** [GetPackageName] *)
(* ===================================================================== *)

Lemma declared_inv (f : FileReader) (name : string) :
  declared f = Some name ->
  exists line rest,
    f_R f = Line line rest /\ Fields line = ["package"; name].
Proof.
  unfold declared, first_line, declares.
  destruct (f_R f) as [line rest | data err]; [| discriminate].
  intros H. exists line, rest. split; [reflexivity |].
  destruct (Fields line) as [|kw [|nm [|more]]]; try discriminate.
  destruct (String.eqb kw "package") eqn:Hkw; [| discriminate].
  apply String.eqb_eq in Hkw. congruence.
Qed.

Lemma last_cons (name : string) (names : list string) (d : string) :
  List.last (name :: names) d = List.last names name.
Proof.
  revert name d. induction names as [|n names IH]; intros name d.
  - reflexivity.
  - change (List.last (name :: n :: names) d) with (List.last (n :: names) d).
    rewrite !IH. reflexivity.
Qed.

(** Over files that all declare a package, the loop ends with the set of
    the declared names and the name of the last file. *)
Lemma package_loop_declared (dir : string) (files : list FileReader)
    (names : list string) (seen : gset string) (pkg_name : string) :
  Forall2 (fun f name => declared f = Some name) files names ->
  fst (package_loop dir files seen pkg_name)
    = package_result dir (list_to_set names ∪ seen)
        (List.last names pkg_name).
Proof.
  intros H. revert seen pkg_name.
  induction H as [|f name files names Hf Hfiles IH]; intros seen pkg_name.
  - cbn [package_loop fst list_to_set List.last foldr].
    now rewrite (left_id_L ∅ (∪)).
  - apply declared_inv in Hf as (line & rest & Hr & Hfields).
    cbn [package_loop]. rewrite Hr. cbn [ReadString]. rewrite Hfields.
    change (String.eqb "package" "package") with true. cbv iota.
    specialize (IH ({[ name ]} ∪ seen) name).
    destruct (package_loop dir files ({[ name ]} ∪ seen) name) as [res fs].
    unfold fst in IH |- *. rewrite IH.
    replace (list_to_set (name :: names) ∪ seen)
      with (list_to_set names ∪ ({[ name ]} ∪ seen) : gset string)
      by (cbn [list_to_set foldr];
          now rewrite (comm_L (∪) {[ name ]} (list_to_set names)),
            <- (assoc_L (∪))).
    now rewrite last_cons.
Qed.

(** The loop over files that declare a package, followed by other files. *)
Lemma package_loop_app (dir : string) (pre rest : list FileReader)
    (names : list string) (seen : gset string) (pkg_name : string) :
  Forall2 (fun f name => declared f = Some name) pre names ->
  fst (package_loop dir (pre ++ rest) seen pkg_name)
    = fst (package_loop dir rest (list_to_set names ∪ seen)
             (List.last names pkg_name)).
Proof.
  intros H. revert seen pkg_name.
  induction H as [|f name pre names Hf Hpre IH]; intros seen pkg_name.
  - cbn [app list_to_set List.last foldr].
    now rewrite (left_id_L ∅ (∪)).
  - apply declared_inv in Hf as (line & rd & Hr & Hfields).
    cbn [package_loop app]. rewrite Hr. cbn [ReadString]. rewrite Hfields.
    change (String.eqb "package" "package") with true. cbv iota.
    specialize (IH ({[ name ]} ∪ seen) name).
    destruct (package_loop dir (pre ++ rest) ({[ name ]} ∪ seen) name)
      as [res fs].
    unfold fst in IH |- *. rewrite IH.
    replace (list_to_set (name :: names) ∪ seen)
      with (list_to_set names ∪ ({[ name ]} ∪ seen) : gset string)
      by (cbn [list_to_set foldr];
          now rewrite (comm_L (∪) {[ name ]} (list_to_set names)),
            <- (assoc_L (∪))).
    now rewrite last_cons.
Qed.


Lemma GetPackageName_fst (d : Directory) :
  fst (GetPackageName d)
    = fst (package_loop (d_Name d) (d_Files d) ∅ EmptyString).
Proof.
  unfold GetPackageName.
  now destruct (package_loop (d_Name d) (d_Files d) ∅ EmptyString).
Qed.

Lemma Forall_declared_names (files : list FileReader) :
  Forall (fun f => declared f <> None) files ->
  exists names, Forall2 (fun f name => declared f = Some name) files names.
Proof.
  induction 1 as [|f files Hf _ [names IH]].
  - exists []. constructor.
  - destruct (declared f) as [name|] eqn:Hd; [| contradiction].
    exists (name :: names). now constructor.
Qed.






(* ===================================================================== *)
(** ** The loop over the directories *)
(* ===================================================================== *)

Section Directories.

Variable filepath_Join : string -> string -> string.
Variable os_ReadDir : string -> list DirEntry * option error.
Variable os_Open : string -> Reader * option error.

(** The loops inside an iteration only add to the recorded errors. *)
Lemma open_files_errs (gs : list string) (files : list FileReader)
    (errs : list error) :
  exists more, snd (open_files os_Open gs files errs) = errs ++ more.
Proof.
  revert files errs. induction gs as [|g gs IH]; intros files errs.
  - exists []. simpl. now rewrite app_nil_r.
  - simpl. destruct (os_Open g) as [f [e|]].
    + destruct (IH files (errs ++ [e])) as [more ->].
      exists (e :: more). now rewrite <- app_assoc.
    + apply IH.
Qed.

Lemma gather_imports_errs (rev : revision) (files : list FileReader)
    (imports : list string) (errs : list error) (imps : list string)
    (errs' : list error) :
  gather_imports rev files imports errs = Returns (imps, errs') ->
  exists more, errs' = errs ++ more.
Proof.
  revert imports errs.
  induction files as [|f files IH]; intros imports errs H.
  - simpl in H. injection H as <- <-. exists []. now rewrite app_nil_r.
  - simpl in H.
    destruct (fst (ParseFileForImportsRev rev (f_R f)))
      as [[i [e|]] | p]; [| | discriminate].
    + apply IH in H as [more ->]. exists (e :: more).
      now rewrite <- app_assoc.
    + now apply IH in H.
Qed.

(** An error of [os.Open] and an error of [ParseFileForImports] are among
    the errors recorded after the loops. *)
Lemma open_files_records (gs : list string) (files : list FileReader)
    (errs : list error) (g : string) (f : Reader) (e : error) :
  In g gs -> os_Open g = (f, Some e) ->
  In e (snd (open_files os_Open gs files errs)).
Proof.
  revert files errs. induction gs as [|g0 gs IH]; intros files errs Hin Hg.
  - inversion Hin.
  - simpl. destruct Hin as [-> | Hin].
    + rewrite Hg.
      destruct (open_files_errs gs files (errs ++ [e])) as [more ->].
      apply in_or_app. left. apply in_or_app. right. now left.
    + destruct (os_Open g0) as [f0 [e0|]]; now apply IH.
Qed.

Lemma gather_imports_records (rev : revision) (files : list FileReader)
    (imports : list string) (errs : list error) (imps : list string)
    (errs' : list error) (f : FileReader) (i : list string) (e : error) :
  gather_imports rev files imports errs = Returns (imps, errs') ->
  In f files ->
  fst (ParseFileForImportsRev rev (f_R f)) = Returns (i, Some e) ->
  In e errs'.
Proof.
  revert imports errs.
  induction files as [|f0 files IH]; intros imports errs H Hin Hf.
  - inversion Hin.
  - simpl in H. destruct Hin as [-> | Hin].
    + rewrite Hf in H. apply gather_imports_errs in H as [more ->].
      apply in_or_app. left. apply in_or_app. right. now left.
    + destruct (fst (ParseFileForImportsRev rev (f_R f0)))
        as [[i0 [e0|]] | p]; [| | discriminate]; now apply IH in H.
Qed.

Lemma llen_zero {A : Type} (l : list A) : (llen l =? 0) = true <-> l = [].
Proof.
  unfold llen. rewrite Z.eqb_eq. destruct l; simpl; split; intros H;
    (reflexivity || discriminate || lia).
Qed.

(** One iteration over a directory that can be listed: it goes on to the
    next directory, with the packages and the errors so far kept, unless
    the extraction of imports panics. *)
Lemma body_listed (d : string) (entry : list DirEntry)
    (pkgs : list Package) (errs : list error) :
  os_ReadDir d = (entry, None) ->
  (exists new_pkgs more,
      loop_body filepath_Join os_ReadDir os_Open d pkgs errs
        = Next (pkgs ++ new_pkgs) (errs ++ more))
  \/ (exists p,
         loop_body filepath_Join os_ReadDir os_Open d pkgs errs
           = Stop (Crash [] p)).
Proof.
  intros Hdir. unfold loop_body. rewrite Hdir.
  destruct (llen (GetGoFiles filepath_Join d entry) =? 0).
  - left. eexists [], [_]. now rewrite app_nil_r.
  - destruct (open_files_errs (GetGoFiles filepath_Join d entry) [] errs)
      as [more1 H1].
    destruct (open_files os_Open (GetGoFiles filepath_Join d entry) [] errs)
      as [files errs1]. simpl in H1. subst errs1.
    destruct (GetPackageName _) as [[name [e|]] dir].
    + left. exists [], (more1 ++ [e]).
      now rewrite app_nil_r, app_assoc.
    + destruct (gather_imports MainGo (d_Files dir) [] (errs ++ more1))
        as [[imps errs2] | p] eqn:Hg.
      * apply gather_imports_errs in Hg as [more2 ->].
        left. eexists [_], (more1 ++ more2). now rewrite app_assoc.
      * right. now exists p.
Qed.

Lemma loop_listed (args : list string) (pkgs : list Package)
    (errs : list error) :
  (forall d, In d args -> snd (os_ReadDir d) = None) ->
  (exists new_pkgs more,
      main_loop filepath_Join os_ReadDir os_Open args pkgs errs = Next (pkgs ++ new_pkgs) (errs ++ more))
  \/ (exists p, main_loop filepath_Join os_ReadDir os_Open args pkgs errs = Stop (Crash [] p)).
Proof.
  revert pkgs errs. induction args as [|d args IH]; intros pkgs errs Hall.
  - left. exists [], []. simpl. now rewrite !app_nil_r.
  - assert (Hd : exists entry, os_ReadDir d = (entry, None)).
    { specialize (Hall d (or_introl eq_refl)).
      destruct (os_ReadDir d) as [entry err]. simpl in Hall. subst.
      now exists entry. }
    destruct Hd as [entry Hd]. simpl.
    destruct (body_listed d entry pkgs errs Hd)
      as [(np & more & ->) | [p ->]].
    + destruct (IH (pkgs ++ np) (errs ++ more)) as
        [(np' & more' & ->) | [p ->]].
      * intros d' Hin. apply Hall. now right.
      * left. exists (np ++ np'), (more ++ more').
        now rewrite !app_assoc.
      * right. now exists p.
    + right. now exists p.
Qed.

End Directories.

(** C5, as stated, fails.  When the first of two directories cannot be
    listed, the run prints the error and exits with status 1: the error is
    not recorded and the second directory, which holds a package when it is
    processed alone, is not processed. *)
Lemma listing_failure_ends_the_run :
  main_loop join read_dir open_file ["nowhere"; "good"] [] []
    = Stop (Exit [ln ("error reading directory: "
                      +:+ Error (no_such_directory "nowhere"))] 1)
  /\ main_loop join read_dir open_file ["good"] [] []
       = Next [{| p_Name := "foo"; p_Deps := [quoted "os"] |}] []
  /\ main toolchain join read_dir open_file ["nowhere"; "good"]
       = Exit [ln ("error reading directory: "
                   +:+ Error (no_such_directory "nowhere"))] 1.
Proof. split; [reflexivity | split; reflexivity]. Qed.

(** C5, amended.  A directory that cannot be listed ends the whole run:
    the error is printed, not recorded, and the exit status is 1.  Every
    other error is recorded and the loop goes on with the next directory: a
    directory without [.go] file and a directory whose package name cannot
    be resolved yield no package; a file that cannot be opened or whose
    imports cannot be extracted is left out of its package.  So when every
    directory can be listed, the loop runs through all of them, unless the
    extraction of imports panics. *)
Theorem directory_errors (filepath_Join : string -> string -> string)
    (os_ReadDir : string -> list DirEntry * option error)
    (os_Open : string -> Reader * option error)
    (d : string) (args : list string) (pkgs : list Package)
    (errs : list error) :
  (forall entry e,
      os_ReadDir d = (entry, Some e) ->
      main_loop filepath_Join os_ReadDir os_Open (d :: args) pkgs errs
        = Stop (Exit [ln ("error reading directory: " +:+ Error e)] 1))
  /\ (forall entry,
         os_ReadDir d = (entry, None) ->
         GetGoFiles filepath_Join d entry = [] ->
         main_loop filepath_Join os_ReadDir os_Open (d :: args) pkgs errs
           = main_loop filepath_Join os_ReadDir os_Open args pkgs
               (errs ++ [errorString ("error: no .go files in " +:+ d)]))
  /\ (forall entry files errs1 name e dir,
         os_ReadDir d = (entry, None) ->
         GetGoFiles filepath_Join d entry <> [] ->
         open_files os_Open (GetGoFiles filepath_Join d entry) [] errs
           = (files, errs1) ->
         GetPackageName {| d_Name := d; d_Files := files |}
           = ((name, Some e), dir) ->
         main_loop filepath_Join os_ReadDir os_Open (d :: args) pkgs errs
           = main_loop filepath_Join os_ReadDir os_Open args pkgs
               (errs1 ++ [e]))
  /\ (forall entry files errs1 name dir imports errs2,
         os_ReadDir d = (entry, None) ->
         GetGoFiles filepath_Join d entry <> [] ->
         open_files os_Open (GetGoFiles filepath_Join d entry) [] errs
           = (files, errs1) ->
         GetPackageName {| d_Name := d; d_Files := files |}
           = ((name, None), dir) ->
         gather_imports MainGo (d_Files dir) [] errs1
           = Returns (imports, errs2) ->
         (exists more, errs2 = errs ++ more)
         /\ (forall g f e,
                In g (GetGoFiles filepath_Join d entry) ->
                os_Open g = (f, Some e) -> In e errs2)
         /\ (forall f i e,
                In f (d_Files dir) ->
                fst (ParseFileForImports (f_R f)) = Returns (i, Some e) ->
                In e errs2)
         /\ main_loop filepath_Join os_ReadDir os_Open (d :: args) pkgs errs
              = main_loop filepath_Join os_ReadDir os_Open args
                  (pkgs ++ [{| p_Name := name; p_Deps := imports |}]) errs2)
  /\ ((forall d', In d' (d :: args) -> snd (os_ReadDir d') = None) ->
      (exists new_pkgs more,
          main_loop filepath_Join os_ReadDir os_Open (d :: args) pkgs errs
            = Next (pkgs ++ new_pkgs) (errs ++ more))
      \/ (exists p,
             main_loop filepath_Join os_ReadDir os_Open (d :: args) pkgs errs
               = Stop (Crash [] p))).
Proof.
  split; [| split; [| split; [| split]]].
  - intros entry e Hdir. simpl. unfold loop_body. now rewrite Hdir.
  - intros entry Hdir Hnone. simpl. unfold loop_body.
    rewrite Hdir, Hnone. reflexivity.
  - intros entry files errs1 name e dir Hdir Hsome Hopen Hpkg.
    simpl. unfold loop_body. rewrite Hdir.
    destruct (llen (GetGoFiles filepath_Join d entry) =? 0) eqn:Hl;
      [now apply llen_zero in Hl |].
    now rewrite Hopen, Hpkg.
  - intros entry files errs1 name dir imports errs2
      Hdir Hsome Hopen Hpkg Hgather.
    split; [| split; [| split]].
    + destruct (open_files_errs os_Open (GetGoFiles filepath_Join d entry)
                  [] errs) as [more1 H1].
      rewrite Hopen in H1. simpl in H1. subst errs1.
      apply gather_imports_errs in Hgather as [more2 ->].
      exists (more1 ++ more2). now rewrite app_assoc.
    + intros g f e Hg He.
      pose proof (open_files_records os_Open _ [] errs g f e Hg He) as Hin.
      rewrite Hopen in Hin. simpl in Hin.
      apply gather_imports_errs in Hgather as [more2 ->].
      apply in_or_app. now left.
    + intros f i e Hf He.
      now apply (gather_imports_records _ _ _ _ _ _ f i e Hgather).
    + simpl. unfold loop_body. rewrite Hdir.
      destruct (llen (GetGoFiles filepath_Join d entry) =? 0) eqn:Hl;
        [now apply llen_zero in Hl |].
      now rewrite Hopen, Hpkg, Hgather.
  - apply loop_listed.
Qed.

Lemma directory_errors_witness :
  main_loop join read_dir open_file ["nowhere"; "good"] [] []
    = Stop (Exit [ln ("error reading directory: "
                      +:+ Error (no_such_directory "nowhere"))] 1)
  /\ main_loop join read_dir open_file ["empty"; "mixed"; "good"] [] []
       = Next [{| p_Name := "foo"; p_Deps := [quoted "os"] |}]
           [ errorString "error: no .go files in empty";
             malformed_package_line (ln "// a comment") "mixed/b.go" ].
Proof.
  split.
  - apply (proj1 (directory_errors join read_dir open_file "nowhere"
                    ["good"] [] []) []).
    reflexivity.
  - rewrite (proj1 (proj2 (directory_errors join read_dir open_file "empty"
                             ["mixed"; "good"] [] [])) []);
      [| reflexivity | reflexivity].
    rewrite (proj1 (proj2 (proj2 (directory_errors join read_dir open_file
                                    "mixed" ["good"] [] _)))
               [{| e_Name := "b.go"; e_IsDir := false |}]
               [{| f_Name := "mixed/b.go";
                   f_R := NewReader (ln "// a comment") |}]
               [errorString "error: no .go files in empty"]
               EmptyString
               (malformed_package_line (ln "// a comment") "mixed/b.go")
               {| d_Name := "mixed";
                  d_Files := [{| f_Name := "mixed/b.go";
                                 f_R := Fail EmptyString io_EOF |}] |});
      [| reflexivity | discriminate | reflexivity | reflexivity].
    reflexivity.
Defined.

(** In the later revision a directory that cannot be listed is skipped and
    the loop goes on, but nothing is recorded for it. *)
Lemma later_revision_skips_unlisted :
  main_loop_later toolchain join read_dir open_file false
      ["nowhere"; "good"] [] []
    = Returns
        ([{| l_Name := "foo"; l_Path := "good"; l_Deps := ["os"] |}], []).
Proof. reflexivity. Qed.

(* ===================================================================== *)
(** ** Reversal and extensions *)
(* ===================================================================== *)

Lemma app_cons (a : ascii) (s t : string) :
  String a s +:+ t = String a (s +:+ t).
Proof. reflexivity. Qed.

Lemma app_assoc_s (s t u : string) : (s +:+ t) +:+ u = s +:+ t +:+ u.
Proof.
  induction s as [|a s IH]; [reflexivity |].
  now rewrite !app_cons, IH.
Qed.

Lemma app_empty_r (s : string) : s +:+ EmptyString = s.
Proof.
  induction s as [|a s IH]; [reflexivity |]. now rewrite app_cons, IH.
Qed.

Lemma rev_app_spec (s acc : string) :
  String.rev_app s acc = String.rev s +:+ acc.
Proof.
  unfold String.rev. revert acc.
  induction s as [|a s IH]; intros acc; simpl; [reflexivity |].
  rewrite (IH (String a acc)), (IH (String a EmptyString)), app_assoc_s.
  reflexivity.
Qed.

Lemma rev_cons (a : ascii) (s : string) :
  String.rev (String a s) = String.rev s +:+ String a EmptyString.
Proof. unfold String.rev at 1. simpl. apply rev_app_spec. Qed.

Lemma rev_app_distr_s (s t : string) :
  String.rev (s +:+ t) = String.rev t +:+ String.rev s.
Proof.
  induction s as [|a s IH].
  - change (String.rev EmptyString) with EmptyString.
    now rewrite app_empty_r.
  - now rewrite app_cons, !rev_cons, IH, app_assoc_s.
Qed.

Lemma rev_involutive_s (s : string) : String.rev (String.rev s) = s.
Proof.
  induction s as [|a s IH]; [reflexivity |].
  rewrite rev_cons, rev_app_distr_s, IH. reflexivity.
Qed.

(** The scan of [filepath.Ext] from the end of the path: when it returns
    something, that is the dot it met first and what it had passed. *)
Lemma ext_go_found (reversed acc : string) :
  ext_go reversed acc <> EmptyString ->
  exists passed rest,
    reversed = passed +:+ String "."%char rest
    /\ ext_go reversed acc = String "."%char (String.rev passed +:+ acc).
Proof.
  revert acc. induction reversed as [|c rs IH]; intros acc H; simpl in *.
  - contradiction.
  - destruct (Ascii.eqb c "/") eqn:Hs; [contradiction |].
    destruct (Ascii.eqb c ".") eqn:Hd.
    + apply Ascii.eqb_eq in Hd as ->. now exists EmptyString, rs.
    + destruct (IH _ H) as (passed & rest & -> & Hex).
      exists (String c passed), rest. split; [reflexivity |].
      rewrite Hex, rev_cons, app_assoc_s. reflexivity.
Qed.

(** [filepath.Ext] gives [.go] exactly for the paths that end in [.go]. *)
Lemma Ext_go (path : string) :
  Ext path = ".go" <-> exists stem, path = stem +:+ ".go".
Proof.
  unfold Ext. split.
  - intros H.
    destruct (ext_go_found (String.rev path) EmptyString)
      as (passed & rest & Hrev & Hex); [rewrite H; discriminate |].
    rewrite H, app_empty_r in Hex. injection Hex as Hgo.
    exists (String.rev rest).
    rewrite <- (rev_involutive_s path), Hrev, rev_app_distr_s, rev_cons.
    rewrite <- Hgo, app_assoc_s. reflexivity.
  - intros [stem ->]. rewrite rev_app_distr_s. reflexivity.
Qed.

(* ===================================================================== *)
(** ** More on [GetGoFiles] *)
(* ===================================================================== *)

Lemma go_files_loop (filepath_Join : string -> string -> string)
    (dir_name : string) (dir : list DirEntry) (go_files : list string) :
  fold_left
    (fun go_files f =>
       if HasPrefix (e_Name f) "." then go_files
       else if e_IsDir f then go_files
       else
         let n := filepath_Join dir_name (e_Name f) in
         if String.eqb (Ext n) ".go" then go_files ++ [n] else go_files)
    dir go_files
  = go_files
    ++ map (fun f => filepath_Join dir_name (e_Name f))
         (List.filter (is_go_file filepath_Join dir_name) dir).
Proof.
  revert go_files. induction dir as [|f dir IH]; intros go_files.
  - simpl. now rewrite app_nil_r.
  - cbn [fold_left List.filter]. rewrite IH. unfold is_go_file at 2.
    destruct (HasPrefix (e_Name f) "."); [reflexivity |].
    destruct (e_IsDir f); [reflexivity |].
    cbn [negb andb].
    destruct (String.eqb (Ext (filepath_Join dir_name (e_Name f))) ".go");
      [| reflexivity].
    cbn [map]. now rewrite <- app_assoc.
Qed.

(** X1.  [GetGoFiles] returns, in the order of the entries, the joined
    paths of the entries that are no directories, whose name does not start
    with a dot and whose joined path ends in [.go]: every path it returns
    ends in [.go] and comes from such an entry, and it returns no more
    paths than there are entries. *)
Theorem go_files_selected (filepath_Join : string -> string -> string)
    (dir_name : string) (dir : list DirEntry) :
  GetGoFiles filepath_Join dir_name dir
    = map (fun f => filepath_Join dir_name (e_Name f))
        (List.filter (is_go_file filepath_Join dir_name) dir)
  /\ (forall n,
         In n (GetGoFiles filepath_Join dir_name dir) ->
         exists f stem,
           In f dir /\ n = filepath_Join dir_name (e_Name f)
           /\ n = stem +:+ ".go" /\ e_IsDir f = false
           /\ HasPrefix (e_Name f) "." = false)
  /\ (List.length (GetGoFiles filepath_Join dir_name dir)
      <= List.length dir)%nat.
Proof.
  assert (Heq : GetGoFiles filepath_Join dir_name dir
                = map (fun f => filepath_Join dir_name (e_Name f))
                    (List.filter (is_go_file filepath_Join dir_name) dir)).
  { unfold GetGoFiles. now rewrite go_files_loop. }
  split; [exact Heq | split].
  - intros n Hin. rewrite Heq in Hin.
    apply in_map_iff in Hin as (f & <- & Hf).
    apply List.filter_In in Hf as [Hf Hok]. unfold is_go_file in Hok.
    apply andb_true_iff in Hok as [Hok Hext].
    apply andb_true_iff in Hok as [Hhidden Hdir].
    apply negb_true_iff in Hhidden. apply negb_true_iff in Hdir.
    apply String.eqb_eq, Ext_go in Hext as [stem Hstem].
    exists f, stem. auto.
  - rewrite Heq, length_map. apply List.filter_length_le.
Qed.

(* ===================================================================== *)
(** ** More on [GetPackageName] *)
(* ===================================================================== *)

Lemma package_result_success (dir : string) (seen : gset string)
    (pkg_name X : string) :
  package_result dir seen pkg_name = (X, None) ->
  size seen = 1%nat /\ X = pkg_name.
Proof.
  unfold package_result.
  destruct (size seen) as [|[|n]]; simpl; intros H;
    [discriminate | | discriminate].
  injection H as <-. auto.
Qed.

(** A successful loop has read a package line in every file. *)
Lemma package_loop_success (dir : string) (files : list FileReader)
    (seen : gset string) (pkg_name X : string) :
  fst (package_loop dir files seen pkg_name) = (X, None) ->
  exists names, Forall2 (fun f name => declared f = Some name) files names.
Proof.
  revert seen pkg_name.
  induction files as [|f files IH]; intros seen pkg_name H.
  - exists []. constructor.
  - cbn [package_loop] in H.
    destruct (f_R f) as [line rd | data err] eqn:Hr;
      cbn [ReadString] in H; [| discriminate].
    destruct (Fields line) as [|kw [|name [|more]]] eqn:Hf;
      try discriminate.
    destruct (String.eqb kw "package") eqn:Hkw; [| discriminate].
    destruct (package_loop dir files ({[ name ]} ∪ seen) name)
      as [res fs] eqn:Hloop.
    cbn [fst] in H. subst res.
    destruct (IH ({[ name ]} ∪ seen) name) as [names Hnames];
      [now rewrite Hloop |].
    exists (name :: names). constructor; [| assumption].
    unfold declared, first_line, declares. now rewrite Hr, Hf, Hkw.
Qed.

Lemma last_In (names : list string) (d : string) :
  names <> [] -> In (List.last names d) names.
Proof.
  induction names as [|n names IH]; intros Hne; [contradiction |].
  rewrite last_cons. destruct names as [|m names]; [now left |].
  right. rewrite last_cons. rewrite last_cons in IH. apply IH. discriminate.
Qed.

(** X2.  A name returned by [GetPackageName] without error is declared by
    the first line of every file of the directory, and the directory has
    at least one file. *)
Theorem package_name_sound (d dir : Directory) (X : string) :
  GetPackageName d = ((X, None), dir) ->
  d_Files d <> []
  /\ Forall (fun f => declared f = Some X) (d_Files d).
Proof.
  intros H. apply (f_equal fst) in H. rewrite GetPackageName_fst in H.
  cbn [fst] in H.
  destruct (package_loop_success _ _ _ _ _ H) as [names Hnames].
  rewrite (package_loop_declared _ _ names) in H by assumption.
  rewrite (right_id_L ∅ (∪)) in H.
  apply package_result_success in H as [Hsize ->].
  apply size_1_elem_of in Hsize as [x Hx].
  assert (Hall : forall n, In n names -> n = x).
  { intros n Hn. apply (elem_of_singleton_1 (C := gset string)).
    rewrite <- Hx. apply elem_of_list_to_set. now apply list_elem_of_In. }
  assert (Hne : names <> []).
  { intros ->. apply (not_elem_of_empty (C := gset string) x).
    cbn [list_to_set foldr] in Hx. rewrite Hx.
    now apply elem_of_singleton_2. }
  rewrite (Hall _ (last_In names EmptyString Hne)).
  split.
  - intros Hnil. rewrite Hnil in Hnames. inversion Hnames. now subst.
  - clear Hne Hx. induction Hnames as [|f n files names Hf _ IH];
      constructor.
    + rewrite Hf. f_equal. apply Hall. now left.
    + apply IH. intros m Hm. apply Hall. now right.
Qed.

Lemma package_name_sound_witness :
  [foo_1; foo_2] <> []
  /\ Forall (fun f => declared f = Some "foo") [foo_1; foo_2].
Proof.
  apply (package_name_sound (dir_of [foo_1; foo_2])
           (snd (GetPackageName (dir_of [foo_1; foo_2]))) "foo").
  reflexivity.
Defined.

(** X3.  When the files before some file all declare a package and the
    first read of that file fails, [GetPackageName] returns the error of
    the read, whatever the files declare: a package line that no newline
    ends is lost with the error [io.EOF]. *)
Theorem package_name_read_failure (d : Directory)
    (pre post : list FileReader) (f : FileReader) (data : string)
    (e : error) :
  d_Files d = pre ++ f :: post ->
  Forall (fun g => declared g <> None) pre ->
  f_R f = Fail data e ->
  fst (GetPackageName d) = (EmptyString, Some e).
Proof.
  intros Hfiles Hpre Hf. rewrite GetPackageName_fst, Hfiles.
  destruct (Forall_declared_names _ Hpre) as [names Hnames].
  rewrite (package_loop_app _ _ _ names) by assumption.
  cbn [package_loop]. now rewrite Hf.
Qed.

Lemma package_name_read_failure_witness :
  first_line unterminated = None
  /\ fst (GetPackageName (dir_of [foo_1; unterminated; bar_1]))
       = (EmptyString, Some io_EOF).
Proof.
  split; [reflexivity |].
  apply (package_name_read_failure (dir_of [foo_1; unterminated; bar_1])
           [foo_1] [bar_1] unterminated "package foo" io_EOF);
    [reflexivity | repeat constructor; discriminate | reflexivity].
Defined.

(** What the loop leaves of the files: it has read one line from each
    file that starts with a package line, up to the first file that does
    not, and one from that file; the files after it are as they were. *)
Lemma package_loop_files (dir : string) (files : list FileReader)
    (seen : gset string) (pkg_name : string) :
  snd (package_loop dir files seen pkg_name)
    = map advance (firstn (S (declared_prefix files)) files)
      ++ skipn (S (declared_prefix files)) files.
Proof.
  revert seen pkg_name.
  induction files as [|f files IH]; intros seen pkg_name; [reflexivity |].
  cbn [package_loop declared_prefix].
  unfold declared, first_line, declares.
  destruct (ReadString (f_R f)) as [[line err] rd] eqn:Hread.
  assert (Hadv : {| f_Name := f_Name f; f_R := rd |} = advance f)
    by (unfold advance; now rewrite Hread).
  rewrite Hadv.
  destruct (f_R f) as [l r | data e]; cbn [ReadString] in Hread;
    injection Hread as <- <- <-; [| reflexivity].
  destruct (Fields l) as [|kw [|name [|more]]]; try reflexivity.
  destruct (String.eqb kw "package"); [| reflexivity].
  specialize (IH ({[ name ]} ∪ seen) name).
  destruct (package_loop dir files ({[ name ]} ∪ seen) name) as [res fs].
  cbn [snd] in *. now rewrite IH.
Qed.

(** Without error every file starts with a package line. *)
Lemma package_loop_all_declared (dir : string) (files : list FileReader)
    (seen : gset string) (pkg_name : string) :
  snd (fst (package_loop dir files seen pkg_name)) = None ->
  declared_prefix files = List.length files.
Proof.
  revert seen pkg_name.
  induction files as [|f files IH]; intros seen pkg_name; [reflexivity |].
  cbn [package_loop declared_prefix].
  unfold declared, first_line, declares.
  destruct (f_R f) as [l r | data e]; cbn [ReadString]; [| discriminate].
  destruct (Fields l) as [|kw [|name [|more]]]; try discriminate.
  destruct (String.eqb kw "package"); [| discriminate].
  specialize (IH ({[ name ]} ∪ seen) name).
  destruct (package_loop dir files ({[ name ]} ∪ seen) name) as [res fs].
  cbn [fst snd List.length] in *. intros H. now rewrite IH.
Qed.

Lemma package_loop_error_name (dir : string) (files : list FileReader)
    (seen : gset string) (pkg_name : string) :
  snd (fst (package_loop dir files seen pkg_name)) <> None ->
  fst (fst (package_loop dir files seen pkg_name)) = EmptyString.
Proof.
  revert seen pkg_name.
  induction files as [|f files IH]; intros seen pkg_name.
  - cbn [package_loop fst]. unfold package_result.
    destruct (size seen =? 0)%nat; [reflexivity |].
    destruct (negb (size seen =? 1)%nat); [reflexivity |].
    intros H. now contradiction H.
  - cbn [package_loop].
    destruct (ReadString (f_R f)) as [[line [e|]] rd]; [reflexivity |].
    destruct (Fields line) as [|kw [|name [|more]]]; try reflexivity.
    destruct (String.eqb kw "package"); [| reflexivity].
    specialize (IH ({[ name ]} ∪ seen) name).
    now destruct (package_loop dir files ({[ name ]} ∪ seen) name).
Qed.

Lemma map_advance_names (files : list FileReader) :
  map f_Name (map advance files) = map f_Name files.
Proof. rewrite map_map. reflexivity. Qed.

(** X4.  [GetPackageName] reads one line from each file up to the one at
    which it returns and leaves the others as they are: it reads the files
    that start with a package line, as far as they go from the head of the
    list, and the first file that does not; the files after that one keep
    their readers.  The directory it leaves has the same name and the same
    file names; without error every file has lost its first line, so that
    the scan of the imports starts on the second; and with an error the
    name returned is empty. *)
Theorem package_name_reads_one_line (d : Directory) :
  d_Name (snd (GetPackageName d)) = d_Name d
  /\ map f_Name (d_Files (snd (GetPackageName d))) = map f_Name (d_Files d)
  /\ d_Files (snd (GetPackageName d))
       = map advance (firstn (S (declared_prefix (d_Files d))) (d_Files d))
         ++ skipn (S (declared_prefix (d_Files d))) (d_Files d)
  /\ (snd (fst (GetPackageName d)) = None ->
      d_Files (snd (GetPackageName d)) = map advance (d_Files d))
  /\ (snd (fst (GetPackageName d)) <> None ->
      fst (fst (GetPackageName d)) = EmptyString).
Proof.
  unfold GetPackageName.
  pose proof (package_loop_files (d_Name d) (d_Files d) ∅ EmptyString)
    as Hsnd.
  pose proof (package_loop_all_declared (d_Name d) (d_Files d) ∅
                EmptyString) as Hnone.
  pose proof (package_loop_error_name (d_Name d) (d_Files d) ∅ EmptyString)
    as Hname.
  destruct (package_loop (d_Name d) (d_Files d) ∅ EmptyString) as [res fs].
  cbn [fst snd d_Name d_Files] in *. subst fs.
  split; [reflexivity | split; [| split; [| split]]].
  - rewrite map_app, map_advance_names, <- map_app.
    now rewrite firstn_skipn.
  - reflexivity.
  - intros H. rewrite (Hnone H).
    rewrite firstn_all2, skipn_all2 by lia. apply app_nil_r.
  - exact Hname.
Qed.

(* ===================================================================== *)
(** ** More on [FilterDependencies] *)
(* ===================================================================== *)

Lemma FilterDependencies_filter
    (build_Import : string -> build_Package * option error)
    (deps : list string) (external noStd : bool) :
  FilterDependencies build_Import deps external noStd
    = List.filter (fun d => negb (excluded build_Import noStd d)) deps.
Proof. unfold FilterDependencies. now rewrite filter_loop, app_nil_l. Qed.

Lemma filter_idempotent {A : Type} (f : A -> bool) (l : list A) :
  List.filter f (List.filter f l) = List.filter f l.
Proof.
  induction l as [|a l IH]; [reflexivity |]. simpl.
  destruct (f a) eqn:Hf; [| exact IH]. simpl. now rewrite Hf, IH.
Qed.

(** X5.  [FilterDependencies] only removes paths: what it keeps are paths
    of its input, in their order and as often as they occur there, so a
    list without duplicates stays without duplicates.  Filtering an
    appended list is appending the filtered lists, filtering twice with the
    same flag changes nothing more, and the parameter [external] has no
    effect. *)
Theorem filter_dependencies_composes
    (build_Import : string -> build_Package * option error)
    (deps deps' : list string) (external external' noStd : bool) :
  FilterDependencies build_Import
      (FilterDependencies build_Import deps external noStd) external' noStd
    = FilterDependencies build_Import deps external noStd
  /\ FilterDependencies build_Import (deps ++ deps') external noStd
       = FilterDependencies build_Import deps external noStd
         ++ FilterDependencies build_Import deps' external noStd
  /\ FilterDependencies build_Import deps external noStd
       = FilterDependencies build_Import deps external' noStd
  /\ (forall d,
         In d (FilterDependencies build_Import deps external noStd) ->
         In d deps)
  /\ (List.NoDup deps ->
      List.NoDup (FilterDependencies build_Import deps external noStd)).
Proof.
  rewrite !FilterDependencies_filter.
  split; [| split; [| split; [| split]]].
  - apply filter_idempotent.
  - apply List.filter_app.
  - reflexivity.
  - intros d Hin. now apply List.filter_In in Hin.
  - apply List.NoDup_filter.
Qed.

(* ===================================================================== *)
(** ** The imports of a directory *)
(* ===================================================================== *)

Lemma slices_Contains_In (s : list string) (v : string) :
  slices_Contains s v = true <-> In v s.
Proof.
  unfold slices_Contains. rewrite existsb_exists. split.
  - intros (x & Hin & Heq). apply String.eqb_eq in Heq. now subst.
  - intros Hin. exists v. split; [assumption | apply String.eqb_refl].
Qed.

(** Appending the imports of one file that are not yet there. *)
Lemma add_imports_spec (i imports : list string) :
  List.NoDup imports ->
  List.NoDup (add_imports imports i)
  /\ (forall s, In s (add_imports imports i) <-> In s imports \/ In s i)
  /\ (exists more, add_imports imports i = imports ++ more).
Proof.
  unfold add_imports. revert imports.
  induction i as [|s0 i IH]; intros imports Hnd; cbn [fold_left].
  - split; [assumption | split].
    + intros s. split; [now left | now intros [H | []]].
    + exists []. now rewrite app_nil_r.
  - destruct (slices_Contains imports s0) eqn:Hc; cbn [negb].
    + apply slices_Contains_In in Hc.
      destruct (IH imports Hnd) as (Hnd' & Hin & Hmore).
      split; [assumption | split; [| assumption]].
      intros s. rewrite Hin. simpl. intuition (subst; auto).
    + assert (Hnot : ~ In s0 imports).
      { intros H. apply slices_Contains_In in H. congruence. }
      destruct (IH (imports ++ [s0])) as (Hnd' & Hin & [more Hmore]).
      { apply List.NoDup_app; [assumption | repeat constructor; easy |].
        intros x Hx [<- | []]. contradiction. }
      split; [assumption | split].
      * intros s. rewrite Hin, in_app_iff. simpl. intuition (subst; auto).
      * exists (s0 :: more). rewrite Hmore, <- app_assoc. reflexivity.
Qed.

Lemma gather_imports_spec (rev : revision) (files : list FileReader)
    (imports : list string) (errs : list error) (imps : list string)
    (errs' : list error) :
  gather_imports rev files imports errs = Returns (imps, errs') ->
  List.NoDup imports ->
  List.NoDup imps
  /\ (exists more, imps = imports ++ more)
  /\ (forall s,
         In s imps <->
         In s imports
         \/ exists f i,
              In f files
              /\ fst (ParseFileForImportsRev rev (f_R f)) = Returns (i, None)
              /\ In s i).
Proof.
  revert imports errs.
  induction files as [|f files IH]; intros imports errs H Hnd.
  - cbn [gather_imports] in H. injection H as <- <-.
    split; [assumption | split].
    + exists []. now rewrite app_nil_r.
    + intros s. split; [now left |].
      intros [H | (f & i & [] & _)]. exact H.
  - cbn [gather_imports] in H.
    destruct (fst (ParseFileForImportsRev rev (f_R f)))
      as [[i [e|]] | p] eqn:Hf; [| | discriminate].
    + destruct (IH _ _ H Hnd) as (Hnd' & Hmore & Hin).
      split; [assumption | split; [assumption |]].
      intros s. rewrite Hin. split.
      * intros [Hs | (g & j & Hg & Hj & Hs)]; [now left |].
        right. exists g, j. split; [now right | auto].
      * intros [Hs | (g & j & [<- | Hg] & Hj & Hs)]; [now left | |].
        -- rewrite Hf in Hj. discriminate.
        -- right. now exists g, j.
    + destruct (add_imports_spec i imports Hnd) as (Hnd1 & Hin1 & [m1 Hm1]).
      destruct (IH _ _ H Hnd1) as (Hnd' & [m2 Hm2] & Hin).
      split; [assumption | split].
      * exists (m1 ++ m2). now rewrite Hm2, Hm1, app_assoc.
      * intros s. rewrite Hin, Hin1. split.
        -- intros [[Hs | Hs] | (g & j & Hg & Hj & Hs)].
           ++ now left.
           ++ right. exists f, i. split; [now left | auto].
           ++ right. exists g, j. split; [now right | auto].
        -- intros [Hs | (g & j & [<- | Hg] & Hj & Hs)].
           ++ left. now left.
           ++ rewrite Hf in Hj. injection Hj as <-. left. now right.
           ++ right. now exists g, j.
Qed.

(** X6.  The imports gathered for a directory have no duplicates and are
    exactly the imports of the files whose scan returns without error: an
    import is in the list if and only if one of these files yields it.  The
    imports of a file whose scan returns an error are not in the list
    unless another file yields them. *)
Theorem gathered_imports_are_the_union (rev : revision)
    (files : list FileReader) (errs : list error) (imps : list string)
    (errs' : list error) :
  gather_imports rev files [] errs = Returns (imps, errs') ->
  List.NoDup imps
  /\ (forall s,
         In s imps <->
         exists f i,
           In f files
           /\ fst (ParseFileForImportsRev rev (f_R f)) = Returns (i, None)
           /\ In s i).
Proof.
  intros H.
  destruct (gather_imports_spec _ _ _ _ _ _ H (List.NoDup_nil _))
    as (Hnd & _ & Hin).
  split; [assumption |].
  intros s. rewrite Hin. split; [now intros [[] | H'] | now right].
Qed.

Lemma gathered_imports_are_the_union_witness :
  gather_imports MainGo [imports_os_fmt; unterminated; imports_fmt_io] [] []
    = Returns ([quoted "os"; quoted "fmt"; quoted "io"], [io_EOF])
  /\ List.NoDup [quoted "os"; quoted "fmt"; quoted "io"].
Proof.
  split; [reflexivity |].
  apply (gathered_imports_are_the_union MainGo
           [imports_os_fmt; unterminated; imports_fmt_io] []
           [quoted "os"; quoted "fmt"; quoted "io"] [io_EOF]).
  reflexivity.
Defined.

(* ===================================================================== *)
(** ** The exit status of [main] *)
(* ===================================================================== *)

Section Accounting.

Variable filepath_Join : string -> string -> string.
Variable os_ReadDir : string -> list DirEntry * option error.
Variable os_Open : string -> Reader * option error.

(** An iteration that goes on either records at least one error and adds
    no package, or adds one package. *)
Lemma loop_body_account (d : string) (pkgs pkgs' : list Package)
    (errs errs' : list error) :
  loop_body filepath_Join os_ReadDir os_Open d pkgs errs = Next pkgs' errs' ->
  (pkgs' = pkgs /\ exists more, more <> [] /\ errs' = errs ++ more)
  \/ (exists p more,
         pkgs' = pkgs ++ [p] /\ errs' = errs ++ more
         /\ List.NoDup (p_Deps p)).
Proof.
  unfold loop_body.
  destruct (os_ReadDir d) as [entry [e|]]; [discriminate |].
  destruct (llen (GetGoFiles filepath_Join d entry) =? 0).
  - intros H. injection H as <- <-. left. split; [reflexivity |].
    eexists [_]. split; [discriminate | reflexivity].
  - destruct (open_files_errs os_Open (GetGoFiles filepath_Join d entry)
                [] errs) as [more1 H1].
    destruct (open_files os_Open (GetGoFiles filepath_Join d entry) [] errs)
      as [files errs1]. cbn [snd] in H1. subst errs1.
    destruct (GetPackageName _) as [[name [e|]] dir].
    + intros H. injection H as <- <-. left. split; [reflexivity |].
      exists (more1 ++ [e]). split; [now destruct more1 |].
      now rewrite app_assoc.
    + destruct (gather_imports MainGo (d_Files dir) [] (errs ++ more1))
        as [[imps errs2] | p] eqn:Hg; [| discriminate].
      intros H. injection H as <- <-. right.
      destruct (gather_imports_spec _ _ _ _ _ _ Hg (List.NoDup_nil _))
        as (Hnd & _ & _).
      apply gather_imports_errs in Hg as [more2 ->].
      eexists _, (more1 ++ more2).
      split; [reflexivity | split; [now rewrite app_assoc | exact Hnd]].
Qed.

Lemma loop_body_stop (d : string) (pkgs : list Package) (errs : list error)
    (r : run) :
  loop_body filepath_Join os_ReadDir os_Open d pkgs errs = Stop r ->
  (exists out, r = Exit out 1) \/ (exists p, r = Crash [] p).
Proof.
  unfold loop_body.
  destruct (os_ReadDir d) as [entry [e|]].
  - intros H. injection H as <-. left. now eexists.
  - destruct (llen (GetGoFiles filepath_Join d entry) =? 0); [discriminate |].
    destruct (open_files os_Open (GetGoFiles filepath_Join d entry) [] errs)
      as [files errs1].
    destruct (GetPackageName _) as [[name [e|]] dir]; [discriminate |].
    destruct (gather_imports MainGo (d_Files dir) [] errs1)
      as [[imps errs2] | p]; [discriminate |].
    intros H. injection H as <-. right. now exists p.
Qed.

Lemma main_loop_stop (args : list string) (pkgs : list Package)
    (errs : list error) (r : run) :
  main_loop filepath_Join os_ReadDir os_Open args pkgs errs = Stop r ->
  (exists out, r = Exit out 1) \/ (exists p, r = Crash [] p).
Proof.
  revert pkgs errs. induction args as [|d args IH]; intros pkgs errs H.
  - discriminate.
  - cbn [main_loop] in H.
    destruct (loop_body filepath_Join os_ReadDir os_Open d pkgs errs)
      as [pkgs1 errs1 | r1] eqn:Hbody.
    + now apply IH in H.
    + injection H as <-. now apply loop_body_stop in Hbody.
Qed.

Lemma main_loop_account (args : list string) (pkgs pkgs' : list Package)
    (errs errs' : list error) :
  main_loop filepath_Join os_ReadDir os_Open args pkgs errs
    = Next pkgs' errs' ->
  exists new more,
    pkgs' = pkgs ++ new /\ errs' = errs ++ more
    /\ (List.length new <= List.length args)%nat
    /\ (more = [] -> List.length new = List.length args)
    /\ Forall (fun p => List.NoDup (p_Deps p)) new.
Proof.
  revert pkgs errs. induction args as [|d args IH]; intros pkgs errs H.
  - cbn [main_loop] in H. injection H as <- <-. exists [], [].
    rewrite !app_nil_r. repeat split; auto.
  - cbn [main_loop] in H.
    destruct (loop_body filepath_Join os_ReadDir os_Open d pkgs errs)
      as [pkgs1 errs1 | r1] eqn:Hbody; [| discriminate].
    apply IH in H as (new & more & -> & -> & Hle & Hall & Hnd).
    apply loop_body_account in Hbody
      as [(-> & m & Hm & ->) | (p & m & -> & -> & Hp)].
    + exists new, (m ++ more). rewrite app_assoc. simpl.
      repeat split; [lia | | assumption].
      intros Hnil. apply app_eq_nil in Hnil as [-> _]. contradiction.
    + exists (p :: new), (m ++ more). rewrite <- !app_assoc. simpl.
      repeat split; [lia | | now constructor].
      intros Hnil. apply app_eq_nil in Hnil as [_ ->]. now rewrite Hall.
Qed.

End Accounting.

(** X7.  A run of [main] that does not panic exits with status 0, 1 or 2,
    and with status 2 only when [flag.Parse] rejects the command line.  When
    it exits with status 0, either the command line asked for help, and
    nothing is written to standard output, or the flags were parsed, at
    least one directory was requested, no error was recorded and the loop
    has produced exactly one package per requested directory, each with
    dependencies free of duplicates; the output is then the lines of these
    packages and nothing else. *)
Theorem exit_zero_means_every_directory
    (build_Import : string -> build_Package * option error)
    (filepath_Join : string -> string -> string)
    (os_ReadDir : string -> list DirEntry * option error)
    (os_Open : string -> Reader * option error)
    (arguments : list string) (out : list string) (code : Z) :
  main build_Import filepath_Join os_ReadDir os_Open arguments
    = Exit out code ->
  (code = 0 \/ code = 1 \/ code = 2)
  /\ (code = 2 -> flag_Parse false arguments = ParseExit 2 /\ out = [])
  /\ (code = 0 ->
      (flag_Parse false arguments = ParseExit 0 /\ out = [])
      \/ exists noStd args pkgs,
           flag_Parse false arguments = Parsed noStd args
           /\ main_loop filepath_Join os_ReadDir os_Open args [] []
                = Next pkgs []
           /\ List.length pkgs = List.length args
           /\ args <> []
           /\ Forall (fun p => List.NoDup (p_Deps p)) pkgs
           /\ out = print_packages build_Import noStd pkgs).
Proof.
  unfold main.
  assert (Hcodes : forall noStd b c,
             flag_Parse noStd b = ParseExit c -> c = 0 \/ c = 2).
  { intros noStd b. revert noStd.
    induction b as [|s b IH]; intros noStd c H; [discriminate |].
    cbn [flag_Parse] in H.
    destruct (parse_arg s); try discriminate; eauto;
      injection H as <-; auto. }
  destruct (flag_Parse false arguments) as [noStd args | c] eqn:Hparse.
  2: { intros H. injection H as <- <-.
       destruct (Hcodes _ _ _ Hparse) as [-> | ->].
       - split; [now left | split; [discriminate |]]. intros _. now left.
       - split; [now right; right | split; [now split |]]. discriminate. }
  unfold main_parsed.
  destruct (llen args =? 0) eqn:Hargs.
  { intros H. injection H as <- <-.
    split; [now right; left | split; discriminate]. }
  destruct (main_loop filepath_Join os_ReadDir os_Open args [] [])
    as [pkgs errs | r] eqn:Hloop.
  - destruct (negb (llen errs =? 0)) eqn:Herrs.
    + intros H. injection H as <- <-.
      split; [now right; left | split; discriminate].
    + intros H. injection H as <- <-.
      split; [now left | split; [discriminate |]]. intros _. right.
      apply negb_false_iff, llen_zero in Herrs. subst errs.
      destruct (main_loop_account _ _ _ _ _ _ _ _ Hloop)
        as (new & more & Hp & Hmore & _ & Hall & Hnd).
      rewrite app_nil_l in Hp. subst pkgs.
      symmetry in Hmore. apply app_eq_nil in Hmore as [_ ->].
      exists noStd, args, new. repeat split; auto.
      intros ->. now rewrite (proj2 (llen_zero [])) in Hargs.
  - intros ->.
    apply main_loop_stop in Hloop as [[out' H] | [p H]];
      [| discriminate H].
    injection H as -> ->. split; [now right; left | split; discriminate].
Qed.

Lemma exit_zero_means_every_directory_witness :
  main toolchain join read_dir open_file ["-no-std=false"; "good"]
    = Exit [ln ("foo " +:+ quoted "os")] 0
  /\ main toolchain join read_dir open_file ["-h"; "good"] = Exit [] 0
  /\ (flag_Parse false ["-no-std=false"; "good"] = ParseExit 0
      \/ exists pkgs,
           main_loop join read_dir open_file ["good"] [] [] = Next pkgs []
           /\ List.length pkgs = 1%nat).
Proof.
  split; [reflexivity | split; [reflexivity |]].
  destruct (exit_zero_means_every_directory toolchain join read_dir
              open_file ["-no-std=false"; "good"]
              [ln ("foo " +:+ quoted "os")] 0 eq_refl) as (_ & _ & H).
  destruct (H eq_refl)
    as [[Hhelp _] | (noStd & args & pkgs & Hparse & Hloop & Hlen & _)].
  - left. exact Hhelp.
  - right. vm_compute in Hparse. injection Hparse as <- <-. exists pkgs.
    split; [exact Hloop | exact Hlen].
Defined.

(* ===================================================================== *)
(** ** Where a scan stops, and how the revisions differ *)
(* ===================================================================== *)

(** A successful scan has read a prefix of the lines and the last line it
    read is one that is neither blank nor an import, or one that closes a
    block. *)
Lemma scan_stop_position (rev : revision) (r : Reader) :
  (forall imports c imps rd,
      scan rev r imports c = (Returns (imps, None), rd) ->
      exists ls last,
        r = prepend (ls ++ [last]) rd /\ can_stop last = true)
  /\ (forall imports c imps rd,
         scan_block rev r imports c = (Returns (imps, None), rd) ->
         exists ls last,
           r = prepend (ls ++ [last]) rd /\ can_stop last = true).
Proof.
  assert (Hcons : forall line r' rd,
             (exists ls last,
                 r' = prepend (ls ++ [last]) rd /\ can_stop last = true) ->
             exists ls last,
               Line line r' = prepend (ls ++ [last]) rd
               /\ can_stop last = true).
  { intros line r' rd (ls & last & -> & Hlast).
    now exists (line :: ls), last. }
  induction r as [line r [IHs IHb] | data err]; split;
    intros imports c imps rd H.
  - rewrite scan_Line in H. iteration_cases H; try discriminate;
      try (apply Hcons; eauto; fail).
    injection H as <- <-. exists [], line. split; [reflexivity |].
    unfold can_stop, is_other.
    repeat match goal with
           | Hx : ?b = false |- context [?b] => rewrite Hx
           end.
    reflexivity.
  - rewrite scan_block_Line in H. iteration_cases H; try discriminate;
      try (apply Hcons; eauto; fail).
    injection H as <- <-. exists [], line. split; [reflexivity |].
    unfold can_stop.
    match goal with
    | Hx : is_block_close line = true |- _ => rewrite Hx
    end.
    apply orb_true_r.
  - simpl in H. discriminate.
  - simpl in H. discriminate.
Qed.

(** X8.  A scan that returns without error has read some lines of the
    source and left the rest unread, and the last line it has read is
    either a line that is neither blank nor an import or the closing line
    of an import block: it never stops right after a blank line or a
    single-line import. *)
Theorem success_stops_after_other_or_close (rev : revision) (r rd : Reader)
    (imps : list string) :
  ParseFileForImportsRev rev r = (Returns (imps, None), rd) ->
  exists ls last,
    r = prepend (ls ++ [last]) rd
    /\ (is_other last = true \/ is_block_close last = true).
Proof.
  intros H. apply (proj1 (scan_stop_position _ _)) in H
    as (ls & last & Hr & Hlast).
  exists ls, last. split; [assumption |]. now apply orb_true_iff.
Qed.

Lemma success_stops_after_other_or_close_witness :
  exists ls last,
    prepend block_a_b (prepend five_others (Line (ln "func f() {}")
                                              (Fail EmptyString io_EOF)))
      = prepend (ls ++ [last])
          (Line (ln "func f() {}") (Fail EmptyString io_EOF))
    /\ (is_other last = true \/ is_block_close last = true).
Proof.
  apply (success_stops_after_other_or_close MainGo _ _ ["a"; "b"]).
  reflexivity.
Defined.

Lemma no_line_prepend (p : string -> bool) (ls : list string) (last : string)
    (rd : Reader) :
  no_line p (prepend (ls ++ [last]) rd) = true -> p last = false.
Proof.
  induction ls as [|l ls IH]; simpl; intros H;
    apply andb_true_iff in H as [H1 H2].
  - now apply negb_true_iff in H1.
  - now apply IH.
Qed.

(** X9.  A source none of whose lines is a line that is neither blank nor
    an import, or the closing line of a block, never yields a successful
    result, however many blank lines it holds: the scan returns the error
    the source fails with and no import, unless it panics. *)
Theorem only_blanks_and_imports_fail (rev : revision) (r : Reader) :
  no_line can_stop r = true ->
  (exists p, fst (ParseFileForImportsRev rev r) = Panics p)
  \/ ParseFileForImportsRev rev r
       = (Returns ([], Some (final_err r)), Fail EmptyString (final_err r)).
Proof.
  intros Hno. unfold ParseFileForImportsRev.
  destruct (scan rev r [] 0) as [[[imps [e|]] | p] rd] eqn:H.
  - right. apply (proj1 (scan_error _ _)) in H as H'.
    destruct H' as (-> & -> & ->). reflexivity.
  - exfalso. apply (proj1 (scan_stop_position _ _)) in H
      as (ls & last & -> & Hlast).
    apply no_line_prepend in Hno. congruence.
  - left. now exists p.
Qed.

Lemma only_blanks_and_imports_fail_witness :
  ParseFileForImports
      (prepend (import_line "fmt" :: repeat blank_line 7)
         (Fail EmptyString io_EOF))
    = (Returns ([], Some io_EOF), Fail EmptyString io_EOF).
Proof.
  destruct (only_blanks_and_imports_fail MainGo
              (prepend (import_line "fmt" :: repeat blank_line 7)
                 (Fail EmptyString io_EOF)) eq_refl) as [[p Hp] | H].
  - vm_compute in Hp. discriminate Hp.
  - exact H.
Defined.

(** The two revisions run alike on a reader that holds no single-line
    import. *)
Lemma scan_revisions_agree (r : Reader) :
  no_line is_single r = true ->
  (forall imports c, scan MainGo r imports c = scan Later r imports c)
  /\ (forall imports c,
         scan_block MainGo r imports c = scan_block Later r imports c).
Proof.
  induction r as [line r IH | data err]; intros Hno.
  - simpl in Hno. apply andb_true_iff in Hno as [Hline Hno].
    destruct (IH Hno) as [IHs IHb].
    apply negb_true_iff in Hline. unfold is_single in Hline.
    split; intros imports c.
    + rewrite !scan_Line, !IHs, !IHb.
      destruct (is_blank line); [reflexivity |].
      simpl in Hline. now rewrite Hline.
    + rewrite !scan_block_Line, !IHs, !IHb.
      destruct (is_block_close line), (is_blank line); try reflexivity.
      destruct (block_import (Fields line)); [reflexivity | apply IHb].
  - split; reflexivity.
Qed.

(** X10.  The later revision of [ParseFileForImports] differs from the one
    of [main.go] on single-line imports only: on a source without such a
    line both return the same result and leave the same lines unread. *)
Theorem revisions_differ_on_single_imports_only (r : Reader) :
  no_line is_single r = true ->
  ParseFileForImportsRev Later r = ParseFileForImports r.
Proof.
  intros H. unfold ParseFileForImports, ParseFileForImportsRev.
  symmetry. now apply scan_revisions_agree.
Qed.

Lemma revisions_differ_on_single_imports_only_witness :
  ParseFileForImportsRev Later
      (prepend block_a_b (prepend five_others (Fail EmptyString io_EOF)))
    = ParseFileForImports
        (prepend block_a_b (prepend five_others (Fail EmptyString io_EOF))).
Proof.
  apply (revisions_differ_on_single_imports_only
           (prepend block_a_b (prepend five_others (Fail EmptyString io_EOF)))).
  reflexivity.
Defined.

(* ===================================================================== *)
(** ** The fields of a line *)
(* ===================================================================== *)

Lemma fields_go_skip (k : nat) (cur : string) (acc : list string)
    (c : ascii) (s : string) :
  fields_go (S k) cur acc (String c s) = fields_go k cur acc s.
Proof. reflexivity. Qed.

Lemma fields_go_nonspace (cur : string) (acc : list string) (c : ascii)
    (s : string) :
  space_width white_space (String c s) = 0%nat ->
  fields_go 0 cur acc (String c s) = fields_go 0 (String c cur) acc s.
Proof. intros H. cbn [fields_go]. now rewrite H. Qed.

Lemma fields_go_space (cur : string) (acc : list string) (c : ascii)
    (s : string) (k : nat) :
  space_width white_space (String c s) = S k ->
  fields_go 0 cur acc (String c s) = fields_go k EmptyString (flush cur acc) s.
Proof. intros H. cbn [fields_go]. now rewrite H. Qed.

Lemma rev_nonempty (c : ascii) (cur : string) :
  String.rev (String c cur) <> EmptyString.
Proof.
  rewrite rev_cons. destruct (String.rev cur); discriminate.
Qed.

Lemma flush_nonempty (cur : string) (acc : list string) :
  Forall (fun t => t <> EmptyString) acc ->
  Forall (fun t => t <> EmptyString) (flush cur acc).
Proof.
  intros H. destruct cur as [|c cur]; [exact H |].
  cbn [flush]. apply Forall_app. split; [exact H |].
  constructor; [apply rev_nonempty | constructor].
Qed.

Lemma flush_length (cur : string) (acc : list string) :
  List.length (flush cur acc)
    = (List.length acc
       + match cur with EmptyString => 0 | String _ _ => 1 end)%nat.
Proof.
  destruct cur; cbn [flush]; [lia |]. rewrite length_app. reflexivity.
Qed.

(** No field is empty. *)
Lemma fields_go_nonempty (s : string) (skip : nat) (cur : string)
    (acc : list string) :
  Forall (fun t => t <> EmptyString) acc ->
  Forall (fun t => t <> EmptyString) (fields_go skip cur acc s).
Proof.
  revert skip cur acc.
  induction s as [|c s IH]; intros skip cur acc Hacc.
  - now apply flush_nonempty.
  - destruct skip as [|k]; [| rewrite fields_go_skip; now apply IH].
    destruct (space_width white_space (String c s)) as [|k] eqn:Hw.
    + rewrite fields_go_nonspace by assumption. now apply IH.
    + rewrite (fields_go_space _ _ _ _ k) by assumption.
      apply IH. now apply flush_nonempty.
Qed.

(** The fields found so far are kept, and a field that has been started
    is counted. *)
Lemma fields_go_length (s : string) (skip : nat) (cur : string)
    (acc : list string) :
  (List.length acc + match cur with EmptyString => 0 | String _ _ => 1 end
   <= List.length (fields_go skip cur acc s))%nat.
Proof.
  revert skip cur acc.
  induction s as [|c s IH]; intros skip cur acc.
  - cbn [fields_go]. rewrite flush_length. lia.
  - destruct skip as [|k]; [| rewrite fields_go_skip; apply IH].
    destruct (space_width white_space (String c s)) as [|k] eqn:Hw.
    + rewrite fields_go_nonspace by assumption.
      specialize (IH 0%nat (String c cur) acc). destruct cur; lia.
    + rewrite (fields_go_space _ _ _ _ k) by assumption.
      specialize (IH k EmptyString (flush cur acc)).
      rewrite flush_length in IH. lia.
Qed.

(** A string with something left after its leading white space has a
    field. *)
Lemma fields_go_trim (s : string) (skip : nat) (acc : list string) :
  trim_left white_space skip s <> EmptyString ->
  (List.length acc + 1
   <= List.length (fields_go skip EmptyString acc s))%nat.
Proof.
  revert skip acc.
  induction s as [|c s IH]; intros skip acc H.
  - now contradiction H.
  - destruct skip as [|k].
    + cbn [trim_left] in H.
      destruct (space_width white_space (String c s)) as [|k] eqn:Hw.
      * rewrite fields_go_nonspace by assumption.
        apply (fields_go_length s 0 (String c EmptyString) acc).
      * rewrite (fields_go_space _ _ _ _ k) by assumption.
        cbn [flush]. now apply IH.
    + rewrite fields_go_skip. now apply IH.
Qed.

Lemma Fields_nonblank (line : string) :
  is_blank line = false -> (1 <= List.length (Fields line))%nat.
Proof.
  intros H. unfold Fields.
  apply (fields_go_trim line 0 []).
  intros Htrim. unfold is_blank, TrimSpace in H. rewrite Htrim in H.
  discriminate H.
Qed.

Lemma Fields_nonempty (line : string) :
  Forall (fun t => t <> EmptyString) (Fields line).
Proof. apply fields_go_nonempty. constructor. Qed.

Lemma prefix_app (p s : string) :
  String.prefix p s = true -> exists post, s = p +:+ post.
Proof.
  revert s. induction p as [|a p IH]; intros s H.
  - now exists s.
  - destruct s as [|b s]; [discriminate |]. cbn [String.prefix] in H.
    destruct (ascii_dec a b) as [-> |]; [| discriminate].
    destruct (IH s H) as [post ->]. now exists post.
Qed.

Lemma Contains_app (s substr : string) :
  Contains s substr = true ->
  exists pre post, s = pre +:+ substr +:+ post.
Proof.
  induction s as [|a s IH]; cbn [Contains]; intros H;
    apply orb_true_iff in H as [H | H].
  - apply prefix_app in H as [post ->]. now exists EmptyString, post.
  - discriminate.
  - apply prefix_app in H as [post ->]. now exists EmptyString, post.
  - destruct (IH H) as (pre & post & ->). now exists (String a pre), post.
Qed.

(** After its first byte, the encoding of a white-space rune has only
    bytes from 128 on. *)
Lemma white_space_tails (w : string) :
  In w white_space ->
  match w with
  | EmptyString => False
  | String _ t => high t = true
  end.
Proof.
  intros H.
  assert (Hall : forallb
                   (fun w => match w with
                             | EmptyString => false
                             | String _ t => high t
                             end) white_space = true) by reflexivity.
  rewrite forallb_forall in Hall. specialize (Hall w H).
  destruct w; [discriminate | exact Hall].
Qed.

Lemma space_width_dropping (c : ascii) (s : string) (k : nat) :
  space_width white_space (String c s) = S k -> dropping k s.
Proof.
  unfold space_width.
  destruct (find (fun w => String.prefix w (String c s)) white_space)
    as [w|] eqn:Hfind; [| discriminate].
  apply find_some in Hfind as [Hin Hpre]. intros Hlen.
  apply white_space_tails in Hin.
  destruct w as [|a t]; [contradiction |].
  apply prefix_app in Hpre as [post Hpost]. rewrite app_cons in Hpost.
  injection Hpost as _ ->. injection Hlen as Hlen.
  now exists t, post.
Qed.

Lemma dropping_tail (k : nat) (c : ascii) (s : string) :
  dropping (S k) (String c s) -> dropping k s.
Proof.
  intros (t & rest & Heq & Hlen & Hhigh).
  destruct t as [|a t]; [discriminate |].
  rewrite app_cons in Heq. injection Heq as _ ->. injection Hlen as Hlen.
  cbn [high] in Hhigh. destruct a. apply andb_true_iff in Hhigh as [_ Hhigh].
  now exists t, rest.
Qed.

Lemma dropping_zero (s : string) : dropping 0 s.
Proof. now exists EmptyString, s. Qed.

(** From the marker of a single-line import on, the scan finds two
    fields at least: the one that ends with [import], and the one the
    double quote starts. *)
Lemma fields_go_marker (post cur : string) (acc : list string) :
  (2 <= List.length (fields_go 0 cur acc (single_marker +:+ post)))%nat.
Proof.
  change (single_marker +:+ post)
    with (String "i" (String "m" (String "p" (String "o" (String "r"
           (String "t" (String " " (String dq post)))))))).
  rewrite !fields_go_nonspace by reflexivity.
  rewrite (fields_go_space _ _ _ _ 0) by reflexivity.
  rewrite fields_go_nonspace by reflexivity.
  cbn [flush].
  pose proof (fields_go_length post 0 (String dq EmptyString)
                (acc ++ [String.rev (String "t" (String "r" (String "o"
                           (String "p" (String "m" (String "i" cur))))))]))
    as H.
  rewrite length_app in H. simpl List.length in H. lia.
Qed.

Lemma fields_go_contains (pre post : string) (skip : nat) (cur : string)
    (acc : list string) :
  dropping skip (pre +:+ single_marker +:+ post) ->
  (2 <= List.length
          (fields_go skip cur acc (pre +:+ single_marker +:+ post)))%nat.
Proof.
  revert skip cur acc.
  induction pre as [|a pre IH]; intros skip cur acc Hdrop.
  - change (EmptyString +:+ single_marker +:+ post)
      with (single_marker +:+ post) in *.
    destruct skip as [|k]; [apply fields_go_marker |].
    exfalso. destruct Hdrop as (t & rest & Heq & Hlen & Hhigh).
    destruct t as [|b t]; [discriminate |].
    change (single_marker +:+ post)
      with (String "i" (String "m" (String "p" (String "o" (String "r"
             (String "t" (String " " (String dq post)))))))) in Heq.
    rewrite app_cons in Heq. injection Heq as <- _.
    cbn [high] in Hhigh. discriminate.
  - rewrite app_cons in *.
    destruct skip as [|k].
    + destruct (space_width white_space
                  (String a (pre +:+ single_marker +:+ post)))
        as [|k] eqn:Hw.
      * rewrite fields_go_nonspace by assumption.
        apply IH, dropping_zero.
      * rewrite (fields_go_space _ _ _ _ k) by assumption.
        apply IH. now apply space_width_dropping in Hw.
    + rewrite fields_go_skip. apply IH. now apply dropping_tail in Hdrop.
Qed.

(** A line that holds the marker of a single-line import has two fields
    at least. *)
Lemma Fields_marker (line : string) :
  Contains line single_marker = true ->
  (2 <= List.length (Fields line))%nat.
Proof.
  intros H. apply Contains_app in H as (pre & post & ->).
  apply fields_go_contains, dropping_zero.
Qed.

(* ===================================================================== *)
(** ** The panics of [ParseFileForImports] *)
(* ===================================================================== *)

Lemma index_inr (l : list string) (i : nat) :
  (i < List.length l)%nat ->
  exists s, index l (Z.of_nat i) = inr s /\ In s l.
Proof.
  intros Hi. unfold index, llen.
  destruct (_ && _) eqn:Hb.
  - rewrite Nat2Z.id.
    destruct (nth_error l i) as [s|] eqn:Hn.
    + exists s. split; [reflexivity |]. now apply nth_error_In in Hn.
    + apply nth_error_None in Hn. lia.
  - apply andb_false_iff in Hb as [Hb | Hb];
      [apply Z.leb_gt in Hb | apply Z.ltb_ge in Hb]; lia.
Qed.

(** Cutting the first and the last byte off a non-empty string panics
    only when the string has one byte. *)
Lemma slice_strip_panics (s : string) (p : panic) :
  s <> EmptyString ->
  slice s 1 (len s - 1) = inl p ->
  p = slice_bounds_out_of_range 1 0.
Proof.
  intros Hne. unfold slice, len.
  destruct s as [|a s]; [contradiction |]. cbn [String.length].
  destruct (_ && _) eqn:Hb; [discriminate |].
  intros H. injection H as <-.
  destruct s as [|b s]; [reflexivity |]. exfalso.
  cbn [String.length] in Hb.
  rewrite !andb_false_iff in Hb.
  destruct Hb as [[Hb | Hb] | Hb]; apply Z.leb_gt in Hb; lia.
Qed.

Lemma single_import_panics (rev : revision) (line : string) (p : panic) :
  Contains line single_marker = true ->
  single_import rev (Fields line) = inl p ->
  rev = Later /\ p = slice_bounds_out_of_range 1 0.
Proof.
  intros Hc. unfold single_import.
  destruct (index_inr (Fields line) 1 (Fields_marker line Hc))
    as (s & Hs & Hin).
  change (Z.of_nat 1) with 1 in Hs. rewrite Hs.
  destruct rev; [discriminate |].
  intros H. split; [reflexivity |].
  apply (slice_strip_panics s); [| assumption].
  pose proof (Fields_nonempty line) as Hall.
  rewrite List.Forall_forall in Hall. now apply Hall.
Qed.

Lemma block_import_panics (line : string) (p : panic) :
  is_blank line = false ->
  block_import (Fields line) = inl p ->
  p = slice_bounds_out_of_range 1 0.
Proof.
  intros Hb. unfold block_import.
  pose proof (Fields_nonblank line Hb) as Hlen.
  pose proof (Fields_nonempty line) as Hall.
  rewrite List.Forall_forall in Hall.
  assert (Hidx : exists s,
             (if llen (Fields line) =? 2
              then index (Fields line) 1 else index (Fields line) 0) = inr s
             /\ In s (Fields line)).
  { destruct (llen (Fields line) =? 2) eqn:H2.
    - apply Z.eqb_eq in H2. unfold llen in H2.
      apply (index_inr (Fields line) 1). lia.
    - apply (index_inr (Fields line) 0). lia. }
  destruct Hidx as (s & -> & Hin).
  apply slice_strip_panics. now apply Hall.
Qed.

(** Every panic of the loops is the one of the slice expression on a token
    of one byte. *)
Lemma scan_panics (rev : revision) (r : Reader) :
  (forall imports c p rd,
      scan rev r imports c = (Panics p, rd) ->
      p = slice_bounds_out_of_range 1 0)
  /\ (forall imports c p rd,
         scan_block rev r imports c = (Panics p, rd) ->
         p = slice_bounds_out_of_range 1 0).
Proof.
  induction r as [line r [IHs IHb] | data err]; split;
    intros imports c p rd H.
  - rewrite scan_Line in H.
    destruct (is_blank line) eqn:Hb; [eauto |].
    destruct (Contains line single_marker) eqn:Hs.
    + destruct (single_import rev (Fields line)) as [q|s] eqn:Hi; [| eauto].
      injection H as <- _.
      now apply single_import_panics in Hi as [_ ->].
    + iteration_cases H; try discriminate; eauto.
  - rewrite scan_block_Line in H.
    destruct (is_block_close line); [iteration_cases H; try discriminate;
                                     eauto |].
    destruct (is_blank line) eqn:Hb; [eauto |].
    destruct (block_import (Fields line)) as [q|s] eqn:Hi; [| eauto].
    injection H as <- _. now apply block_import_panics in Hi.
  - simpl in H. discriminate.
  - simpl in H. discriminate.
Qed.

(** X11.  The only run-time panic of [ParseFileForImports], in either
    revision, is the one of the slice expression on a token of a single
    byte: the index expressions on the fields of a line never panic. *)
Theorem panics_are_slice_bounds (rev : revision) (r rd : Reader)
    (p : panic) :
  ParseFileForImportsRev rev r = (Panics p, rd) ->
  p = slice_bounds_out_of_range 1 0.
Proof. intros H. now apply (proj1 (scan_panics _ _)) in H. Qed.

Lemma panics_are_slice_bounds_witness :
  ParseFileForImportsRev Later
      (Line (ln ("import " +:+ String dq EmptyString))
         (Fail EmptyString io_EOF))
    = (Panics (slice_bounds_out_of_range 1 0), Fail EmptyString io_EOF)
  /\ slice_bounds_out_of_range 1 0 = slice_bounds_out_of_range 1 0.
Proof.
  split; [reflexivity |].
  apply (panics_are_slice_bounds Later
           (Line (ln ("import " +:+ String dq EmptyString))
              (Fail EmptyString io_EOF))
           (Fail EmptyString io_EOF)).
  reflexivity.
Defined.

(** Outside import blocks the loop of [main.go] does not panic. *)
Lemma scan_no_block_no_panic (r : Reader) :
  no_line is_block_open r = true ->
  forall imports c p rd, scan MainGo r imports c <> (Panics p, rd).
Proof.
  induction r as [line r IH | data err]; intros Hno imports c p rd H.
  - simpl in Hno. apply andb_true_iff in Hno as [Hline Hno].
    apply negb_true_iff in Hline. unfold is_block_open in Hline.
    rewrite scan_Line in H.
    destruct (is_blank line) eqn:Hb; [now apply IH in H |].
    destruct (Contains line single_marker) eqn:Hs.
    + destruct (single_import MainGo (Fields line)) as [q|s] eqn:Hi.
      * now apply single_import_panics in Hi as [? _].
      * now apply IH in H.
    + simpl in Hline. rewrite Hline in H.
      destruct (threshold <=? int_incr c); [discriminate |].
      now apply IH in H.
  - simpl in H. discriminate.
Qed.

(** X12.  On a source without a line that opens an import block, the
    [ParseFileForImports] of [main.go] never panics: it returns a list of
    imports or an error. *)
Theorem main_go_panics_only_in_blocks (r : Reader) :
  no_line is_block_open r = true ->
  exists imports err rd, ParseFileForImports r = (Returns (imports, err), rd).
Proof.
  intros Hno. unfold ParseFileForImports, ParseFileForImportsRev.
  destruct (scan MainGo r [] 0) as [[[imports err] | p] rd] eqn:H.
  - now exists imports, err, rd.
  - exfalso. revert H. now apply scan_no_block_no_panic.
Qed.

Lemma main_go_panics_only_in_blocks_witness :
  exists imports err rd,
    ParseFileForImports
        (Line (ln ("import " +:+ String dq EmptyString))
           (Fail EmptyString io_EOF))
      = (Returns (imports, err), rd).
Proof.
  apply (main_go_panics_only_in_blocks
           (Line (ln ("import " +:+ String dq EmptyString))
              (Fail EmptyString io_EOF))).
  reflexivity.
Defined.
